(** * Flask-WhooshAlchemy: a shallow embedding of [flask_whooshalchemy.py]

    The module keeps a Whoosh full-text index in step with SQLAlchemy
    models and re-orders relational query results by text relevance.
    The embedding follows the Python source function by function:

    - [Py]        values, [unicode()], exceptions and the result monad;
    - [Heapq]     the standard [heapq] module ([heappush], [heappop]) that
                  [_QueryProxy.__iter__] uses to re-order rows;
    - [Model]     record types and rows, the Whoosh index, the relational
                  query, and the state of the process;
    - [Whoosh]    the functions of the module itself;
    - [Scenario]  a concrete record type and concrete states;
    - [Specs]     the predicates the properties are stated with;

    then the properties, one module per component. *)

From Equations Require Import Equations.
From Equations.Prop Require Import Logic.
From stdpp Require Import gmap strings list fin_maps pretty sorting.

(** ** Python values, exceptions, results *)

Module Py.

(** The Python 2 values that reach the module: column values and the
    query argument of [whoosh_search]. [VStr] is a byte string ([str]),
    [VUnicode] a text string ([unicode]). *)
Inductive PyValue : Type :=
| VNone
| VBool (b : bool)
| VInt (z : Z)
| VStr (s : string)
| VUnicode (s : string).

#[global] Instance PyValue_eq_dec : EqDecision PyValue.
Proof. solve_decision. Defined.

(** Exceptions the module can raise, by class. *)
Inductive PyExc : Type :=
| KeyError (key : PyValue)
| AttributeError (msg : string)
| TypeError (msg : string)
| IndexError (msg : string)
| UnicodeDecodeError (bytes : string)
| EmptyIndexError (dir : string).

#[global] Instance PyExc_eq_dec : EqDecision PyExc.
Proof. solve_decision. Defined.

(** [type(e).__name__] *)
Definition exc_name (e : PyExc) : string :=
  match e with
  | KeyError _ => "KeyError"
  | AttributeError _ => "AttributeError"
  | TypeError _ => "TypeError"
  | IndexError _ => "IndexError"
  | UnicodeDecodeError _ => "UnicodeDecodeError"
  | EmptyIndexError _ => "EmptyIndexError"
  end.

(** A computation either returns or raises. *)
Inductive PyResult (A : Type) : Type :=
| Ok (a : A)
| Raise (e : PyExc).
Arguments Ok {A} a.
Arguments Raise {A} e.

#[global] Instance PyResult_ret : MRet PyResult := λ A a, Ok a.
#[global] Instance PyResult_bind : MBind PyResult := λ A B f m,
  match m with
  | Ok a => f a
  | Raise e => Raise e
  end.
#[global] Instance PyResult_fmap : FMap PyResult := λ A B f m,
  match m with
  | Ok a => Ok (f a)
  | Raise e => Raise e
  end.

(** [unicode(s)] on a byte string decodes it as ASCII. *)
Fixpoint is_ascii (s : string) : bool :=
  match s with
  | EmptyString => true
  | String (Ascii.Ascii _ _ _ _ _ _ _ b7) s' => negb b7 && is_ascii s'
  end.

(** [unicode(v)] *)
Definition unicode (v : PyValue) : PyResult string :=
  match v with
  | VNone => Ok "None"
  | VBool true => Ok "True"
  | VBool false => Ok "False"
  | VInt z => Ok (pretty z)
  | VStr s => if is_ascii s then Ok s else Raise (UnicodeDecodeError s)
  | VUnicode s => Ok s
  end.

(** [isinstance(v, unicode)] *)
Definition is_unicode (v : PyValue) : bool :=
  match v with
  | VUnicode _ => true
  | _ => false
  end.

(** [d[k]] on a dict with text keys *)
Definition dict_getitem {V : Type} (d : gmap string V) (k : string)
  : PyResult V :=
  match d !! k with
  | Some v => Ok v
  | None => Raise (KeyError (VUnicode k))
  end.

(** [l[i]] on a list, for a non-negative [i] *)
Definition list_getitem {A : Type} (l : list A) (i : nat) : PyResult A :=
  match l !! i with
  | Some x => Ok x
  | None => Raise (IndexError "list index out of range")
  end.

(** [l[i] = x] on a list, for a non-negative [i] *)
Definition list_setitem {A : Type} (l : list A) (i : nat) (x : A)
  : PyResult (list A) :=
  if decide (i < length l) then Ok (<[i := x]> l)
  else Raise (IndexError "list assignment index out of range").

(** [l.pop()]: the last element and the list without it *)
Definition list_pop {A : Type} (l : list A) : PyResult (A * list A) :=
  match last l with
  | Some x => Ok (x, removelast l)
  | None => Raise (IndexError "pop from empty list")
  end.

End Py.
Export Py.

(** ** The [heapq] module

  [heappush] and [heappop] as in the Python 2.7 standard library, on a
  list used as an array. [cmp_lt x y] is [x < y]. *)

Module Heapq.
Section Defs.
Context {T : Type} (cmp_lt : T → T → bool).

(** [(pos - 1) >> 1] *)
Definition parent_of (pos : nat) : nat := Nat.shiftr (pos - 1) 1.

Lemma parent_of_div pos : parent_of pos = (pos - 1) / 2.
Proof. unfold parent_of. by rewrite Nat.shiftr_div_pow2. Qed.

Lemma parent_of_lt pos : 0 < pos → parent_of pos < pos.
Proof.
  rewrite parent_of_div. intros.
  apply Nat.Div0.div_lt_upper_bound. lia.
Qed.

(** The [while pos > startpos] loop of [_siftdown]: the state is the
    heap and the position of the hole that [newitem] will fill. *)
Equations? siftdown_loop (heap : list T) (startpos pos : nat) (newitem : T)
  : PyResult (list T * nat) by wf pos lt :=
  siftdown_loop heap startpos pos newitem with le_lt_dec pos startpos := {
    | left _ => Ok (heap, pos)
    | right Hgt with list_getitem heap (parent_of pos) := {
        | Raise e => Raise e
        | Ok parent with cmp_lt newitem parent := {
            | false => Ok (heap, pos)
            | true with list_setitem heap pos parent := {
                | Raise e => Raise e
                | Ok heap' =>
                    siftdown_loop heap' startpos (parent_of pos) newitem } } } }.
Proof. apply parent_of_lt. lia. Qed.

Definition _siftdown (heap : list T) (startpos pos : nat)
  : PyResult (list T) :=
  newitem ← list_getitem heap pos;
  '(heap', pos') ← siftdown_loop heap startpos pos newitem;
  list_setitem heap' pos' newitem.

Definition heappush (heap : list T) (item : T) : PyResult (list T) :=
  let heap := heap ++ [item] in
  _siftdown heap 0 (length heap - 1).

(** The choice of the smaller child in [_siftup]:
    [if rightpos < endpos and not heap[childpos] < heap[rightpos]] *)
Definition smaller_child (heap : list T) (endpos childpos : nat)
  : PyResult nat :=
  let rightpos := childpos + 1 in
  if decide (rightpos < endpos) then
    c ← list_getitem heap childpos;
    r ← list_getitem heap rightpos;
    Ok (if cmp_lt c r then childpos else rightpos)
  else Ok childpos.

Lemma smaller_child_range heap endpos childpos c :
  smaller_child heap endpos childpos = Ok c →
  c = childpos ∨ (c = childpos + 1 ∧ childpos + 1 < endpos).
Proof.
  unfold smaller_child. case_decide; [|intros [= <-]; by left].
  destruct (list_getitem heap childpos); [|done].
  destruct (list_getitem heap (childpos + 1)); [|done].
  simpl. destruct (cmp_lt _ _); intros [= <-]; auto.
Qed.

(** The [while childpos < endpos] loop of [_siftup]. *)
Equations? siftup_loop (heap : list T) (endpos pos : nat)
  : PyResult (list T * nat) by wf (endpos - pos) lt :=
  siftup_loop heap endpos pos with le_lt_dec endpos (2 * pos + 1) := {
    | left _ => Ok (heap, pos)
    | right Hlt with inspect (smaller_child heap endpos (2 * pos + 1)) := {
        | exist _ (Raise e) Hsc => Raise e
        | exist _ (Ok childpos) Hsc
            with (list_getitem heap childpos ≫= list_setitem heap pos) := {
            | Raise e => Raise e
            | Ok heap' => siftup_loop heap' endpos childpos } } }.
Proof. apply smaller_child_range in Hsc. lia. Qed.

Definition _siftup (heap : list T) (pos : nat) : PyResult (list T) :=
  let endpos := length heap in
  let startpos := pos in
  newitem ← list_getitem heap pos;
  '(heap', pos') ← siftup_loop heap endpos pos;
  heap'' ← list_setitem heap' pos' newitem;
  _siftdown heap'' startpos pos'.

Definition heappop (heap : list T) : PyResult (T * list T) :=
  '(lastelt, heap) ← list_pop heap;
  match heap with
  | [] => Ok (lastelt, heap)
  | _ :: _ =>
      returnitem ← list_getitem heap 0;
      heap' ← list_setitem heap 0 lastelt;
      heap'' ← _siftup heap' 0;
      Ok (returnitem, heap'')
  end.

Lemma list_setitem_length (l l' : list T) i x :
  list_setitem l i x = Ok l' → length l' = length l.
Proof.
  unfold list_setitem. case_decide; [|done].
  intros [= <-]. by rewrite length_insert.
Qed.

Lemma siftdown_loop_length heap startpos pos newitem heap' pos' :
  siftdown_loop heap startpos pos newitem = Ok (heap', pos') →
  length heap' = length heap.
Proof.
  funelim (siftdown_loop heap startpos pos newitem);
    try (intros [= <- <-]; done); try done.
  intros Hrun. rewrite (H _ _ Hrun). by eapply list_setitem_length.
Qed.

Lemma _siftdown_length heap startpos pos heap' :
  _siftdown heap startpos pos = Ok heap' → length heap' = length heap.
Proof.
  unfold _siftdown. destruct (list_getitem heap pos) as [newitem|]; [|done].
  simpl. destruct (siftdown_loop _ _ _ _) as [[h p]|] eqn:Hrun; [|done].
  simpl. intros ->%list_setitem_length. by eapply siftdown_loop_length.
Qed.

Lemma siftup_loop_length heap endpos pos heap' pos' :
  siftup_loop heap endpos pos = Ok (heap', pos') →
  length heap' = length heap.
Proof.
  funelim (siftup_loop heap endpos pos);
    try (intros [= <- <-]; done); try done.
  intros Hrun. rewrite (H _ _ Hrun).
  destruct (list_getitem heap childpos); [|done].
  by eapply list_setitem_length.
Qed.

Lemma _siftup_length heap pos heap' :
  _siftup heap pos = Ok heap' → length heap' = length heap.
Proof.
  unfold _siftup. destruct (list_getitem heap pos) as [newitem|]; [|done].
  simpl. destruct (siftup_loop _ _ _) as [[h p]|] eqn:Hrun; [|done].
  simpl. destruct (list_setitem h p newitem) as [h'|] eqn:Hset; [|done].
  simpl. intros Hs. apply _siftdown_length in Hs as ->.
  apply list_setitem_length in Hset as ->. by eapply siftup_loop_length.
Qed.

Lemma heappop_length heap x heap' :
  heappop heap = Ok (x, heap') → length heap' < length heap.
Proof.
  unfold heappop, list_pop.
  destruct (last heap) as [lastelt|] eqn:Hlast; [|done]. simpl.
  assert (length (removelast heap) < length heap) as Hlt.
  { apply last_Some in Hlast as [l' ->].
    rewrite removelast_last, length_app. simpl. lia. }
  destruct (removelast heap) as [|root body] eqn:Hbody.
  { intros [= <- <-]. done. }
  simpl. unfold list_setitem. simpl.
  destruct (_siftup _ _) as [h|] eqn:Hrun; [|done]. simpl.
  intros [= <- <-]. apply _siftup_length in Hrun. simpl in *. lia.
Qed.

End Defs.
End Heapq.

(** ** The data model: record types, rows, the two stores *)

Module Model.

(** Column types of [sqlalchemy.types]. *)
Inductive ColType : Type :=
| TInteger | TFloat | TBoolean | TDateTime | TLargeBinary
| TString | TText | TUnicode | TUnicodeText | TEnum.

(** [isinstance(t, (Text, String, Unicode))]: [Text], [Unicode],
    [UnicodeText] and [Enum] are subclasses of [String]. *)
Definition is_textual (t : ColType) : bool :=
  match t with
  | TString | TText | TUnicode | TUnicodeText | TEnum => true
  | TInteger | TFloat | TBoolean | TDateTime | TLargeBinary => false
  end.

(** An element of [model.__table__.columns]. *)
Record Column : Type := mkColumn {
  col_name : string;
  col_primary_key : bool;
  col_type : ColType }.

(** A model class. [cls_id] is the identity of the class object (two
    classes may share a [__name__]); [cls_searchable] is [__searchable__]
    when the class declares it. *)
Record PyClass : Type := mkClass {
  cls_id : string;
  cls_name : string;
  cls_searchable : option (list string);
  cls_columns : list Column }.

(** A record instance (a row of the relational store). *)
Record Instance : Type := mkInstance {
  inst_class : PyClass;
  inst_attrs : gmap string PyValue }.

(** [getattr(v, name)] *)
Definition getattr (v : Instance) (name : string) : PyResult PyValue :=
  match inst_attrs v !! name with
  | Some x => Ok x
  | None =>
      Raise (AttributeError ("'" +:+ cls_name (inst_class v) +:+
                             "' object has no attribute '" +:+ name +:+ "'"))
  end.

(** [getattr(v, name)] where [name] may be [None] *)
Definition getattr_name (v : Instance) (name : option string)
  : PyResult PyValue :=
  match name with
  | Some name => getattr v name
  | None => Raise (TypeError "getattr(): attribute name must be string")
  end.

(** [hasattr(v.__class__, '__searchable__')] *)
Definition has_searchable (v : Instance) : bool :=
  bool_decide (is_Some (cls_searchable (inst_class v))).

(** [v.__searchable__] *)
Definition get_searchable (v : Instance) : PyResult (list string) :=
  match cls_searchable (inst_class v) with
  | Some l => Ok l
  | None =>
      Raise (AttributeError ("'" +:+ cls_name (inst_class v) +:+
               "' object has no attribute '__searchable__'"))
  end.

(** *** The Whoosh index *)

(** The two field kinds the module creates:
    [whoosh.fields.ID(stored=True, unique=True)] and
    [whoosh.fields.TEXT(analyzer=StemmingAnalyzer())]. *)
Inductive FieldKind : Type :=
| ID_stored_unique
| TEXT_stemming.

#[global] Instance FieldKind_eq_dec : EqDecision FieldKind.
Proof. solve_decision. Defined.

Abbreviation Schema := (gmap string FieldKind).

(** A document: field name to text. A hit exposes the stored fields of
    its document the same way. *)
Abbreviation Document := (gmap string string).
Abbreviation Hit := (gmap string string).

(** An index as it is on disk: its schema and its committed documents. *)
Record Index : Type := mkIndex {
  ix_schema : Schema;
  ix_docs : list Document }.

(** What [whoosh.index.open_dir] and [create_in] return: an index object
    bound to its directory. *)
Record IndexHandle : Type := mkHandle { ix_dir : string }.

#[global] Instance IndexHandle_eq_dec : EqDecision IndexHandle.
Proof. solve_decision. Defined.

(** An open [IndexWriter]: the schema and the documents as they will be
    after [commit]. *)
Record Writer : Type := mkWriter {
  w_schema : Schema;
  w_docs : list Document }.

(** The new document [attrs] replaces [d]: they agree on a field that the
    schema marks unique. *)
Definition replaces (schema : Schema) (attrs d : Document) : bool :=
  existsb (λ '(f, v), bool_decide (schema !! f = Some ID_stored_unique
                                   ∧ d !! f = Some v))
          (map_to_list attrs).

(** Modelled from the spec: [writer.update_document], called with the
    fields as keyword arguments, of the index engine, which is outside
    the module: section 4.4, "upsert a Document keyed by primary-key
    string (replace-semantics: a prior document with the same key is
    fully replaced, not merged)". The key is the field that the schema of
    the index holds as identifier. *)
Definition update_document (w : Writer) (attrs : Document) : Writer :=
  {| w_schema := w_schema w;
     w_docs := filter (λ d, replaces (w_schema w) attrs d = false) (w_docs w)
               ++ [attrs] |}.

(** Modelled from the spec: [writer.delete_by_term(field, text)] of the
    index engine: section 4.4, "remove any document whose identifier field
    equals the record's primary-key string". *)
Definition delete_by_term (w : Writer) (field text : string) : Writer :=
  {| w_schema := w_schema w;
     w_docs := filter (λ d, d !! field ≠ Some text) (w_docs w) |}.

(** [_Searcher]: the callable bound to a record type as [pure_whoosh]. *)
Record Searcher : Type := mkSearcher {
  primary_key_name : option string;
  _index : IndexHandle;
  _all_fields : list string }.

(** *** The relational query *)

(** The filter criteria the module builds: the literal SQL text of
    [filter('null')] and [column.in_(result_set)]. *)
Inductive Criterion : Type :=
| TextClause (sql : string)
| InClause (column : string) (keys : gset string).

(** A [_QueryProxy]: the copied state of the relational query (its
    criteria) and the four fields of [__init__]. *)
Record _QueryProxy : Type := mkProxy {
  criteria : list Criterion;
  _primary_key_name : option string;
  _whoosh_searcher : Searcher;
  _model : Instance;
  _whoosh_rank : option (gmap string nat) }.

(** A query object: a plain [sqlalchemy.orm.Query] or a [_QueryProxy]. *)
Inductive QueryObj : Type :=
| PlainQuery (criteria : list Criterion)
| ProxyQuery (proxy : _QueryProxy).

(** *** The process state *)

(** The attributes the module reads and sets on a model class. *)
Record ClassAttrs : Type := mkClassAttrs {
  query : QueryObj;
  pure_whoosh : option Searcher }.

(** The Flask application object: [app.whoosh_indexes] (absent until the
    first call) and [app.config]. *)
Record App : Type := mkApp {
  whoosh_indexes : option (gmap string IndexHandle);
  config : gmap string string }.

(** The file system: existing directories, and the index stored in a
    directory when there is one. *)
Record Disk : Type := mkDisk {
  dirs : gset string;
  index_files : gmap string Index }.

Record World : Type := mkWorld {
  app : App;
  disk : Disk;
  classes : gmap string ClassAttrs }.

End Model.
Export Model.

(** ** The module [flask_whooshalchemy] *)

Module Whoosh.

(** State and exceptions: a computation runs in a [World], changes it,
    and returns or raises. *)
Definition M (A : Type) : Type := World → PyResult A * World.

#[global] Instance M_ret : MRet M := λ A a w, (Ok a, w).
#[global] Instance M_bind : MBind M := λ A B f m w,
  match m w with
  | (Ok a, w') => f a w'
  | (Raise e, w') => (Raise e, w')
  end.
#[global] Instance M_fmap : FMap M := λ A B f m w,
  match m w with
  | (Ok a, w') => (Ok (f a), w')
  | (Raise e, w') => (Raise e, w')
  end.

Definition lift {A : Type} (r : PyResult A) : M A := λ w, (r, w).
Definition get_world : M World := λ w, (Ok w, w).
Definition put_world (w : World) : M unit := λ _, (Ok (), w).

Definition set_whoosh_indexes (ixs : gmap string IndexHandle) (w : World)
  : World :=
  {| app := {| whoosh_indexes := Some ixs; config := config (app w) |};
     disk := disk w; classes := classes w |}.

Definition set_config (c : gmap string string) (w : World) : World :=
  {| app := {| whoosh_indexes := whoosh_indexes (app w); config := c |};
     disk := disk w; classes := classes w |}.

Definition set_disk (d : Disk) (w : World) : World :=
  {| app := app w; disk := d; classes := classes w |}.

Definition set_classes (c : gmap string ClassAttrs) (w : World) : World :=
  {| app := app w; disk := disk w; classes := c |}.

(** [cls.query], read on the class *)
Definition class_attrs (c : PyClass) (attr : string) : M ClassAttrs := λ w,
  match classes w !! cls_id c with
  | Some a => (Ok a, w)
  | None =>
      (Raise (AttributeError ("type object '" +:+ cls_name c +:+
                "' has no attribute '" +:+ attr +:+ "'")), w)
  end.

Definition class_query (c : PyClass) : M QueryObj :=
  query <$> class_attrs c "query".

(** [v.pure_whoosh], read on an instance [v] of the class and found on
    the class, where [_whoosh_index] puts it. *)
Definition class_pure_whoosh (c : PyClass) : M Searcher := λ w,
  match classes w !! cls_id c with
  | Some a =>
      match pure_whoosh a with
      | Some s => (Ok s, w)
      | None =>
          (Raise (AttributeError ("'" +:+ cls_name c +:+
                    "' object has no attribute 'pure_whoosh'")), w)
      end
  | None =>
      (Raise (AttributeError ("'" +:+ cls_name c +:+
                "' object has no attribute 'pure_whoosh'")), w)
  end.

(** The index stored in the directory of a handle. *)
Definition read_index (indx : IndexHandle) : M Index := λ w,
  match index_files (disk w) !! ix_dir indx with
  | Some ix => (Ok ix, w)
  | None => (Raise (EmptyIndexError (ix_dir indx)), w)
  end.

(** [os.path.join(a, b)] *)
Definition ends_with_slash (a : string) : bool :=
  bool_decide (String.substring (String.length a - 1) 1 a = "/").

Definition path_join (a b : string) : string :=
  if String.prefix "/" b then b
  else if bool_decide (a = "") || ends_with_slash a then a +:+ b
  else a +:+ "/" +:+ b.

(** *** [_get_whoosh_schema_and_primary] *)
Fixpoint schema_loop (model : Instance) (columns : list Column)
    (schema : Schema) (primary : option string)
  : PyResult (Schema * option string) :=
  match columns with
  | [] => Ok (schema, primary)
  | field :: columns =>
      let '(schema, primary) :=
        if col_primary_key field
        then (<[col_name field := ID_stored_unique]> schema,
              Some (col_name field))
        else (schema, primary) in
      searchable ← get_searchable model;
      let schema :=
        if bool_decide (col_name field ∈ searchable)
        then if is_textual (col_type field)
             then <[col_name field := TEXT_stemming]> schema
             else schema
        else schema in
      schema_loop model columns schema primary
  end.

Definition _get_whoosh_schema_and_primary (model : Instance)
  : PyResult (Schema * option string) :=
  schema_loop model (cls_columns (inst_class model)) ∅ None.

(** *** [_Searcher.__init__] and [_QueryProxy.__init__] *)
Definition _Searcher_init (primary : option string) (indx : IndexHandle)
  : M Searcher :=
  ix ← read_index indx;
  mret {| primary_key_name := primary;
          _index := indx;
          _all_fields :=
            elements (dom (ix_schema ix) ∖
                      match primary with
                      | Some p => {[p]}
                      | None => ∅
                      end) |}.

Definition query_criteria (q : QueryObj) : list Criterion :=
  match q with
  | PlainQuery cs => cs
  | ProxyQuery p => criteria p
  end.

Definition _QueryProxy_init (query_obj : QueryObj) (primary : option string)
    (searcher : Searcher) (model : Instance) : _QueryProxy :=
  {| criteria := query_criteria query_obj;
     _primary_key_name := primary;
     _whoosh_searcher := searcher;
     _model := model;
     _whoosh_rank := None |}.

(** *** [_whoosh_index] *)

(** [whoosh.index.open_dir(wi)] when [whoosh.index.exists_in(wi)], else
    [os.makedirs(wi)] unless [os.path.exists(wi)], and
    [whoosh.index.create_in(wi, schema)]. *)
Definition open_or_create (wi : string) (schema : Schema) : M IndexHandle :=
  w ← get_world;
  if bool_decide (is_Some (index_files (disk w) !! wi))
  then mret {| ix_dir := wi |}
  else
    let dirs' := if bool_decide (wi ∈ dirs (disk w))
                 then dirs (disk w) else {[wi]} ∪ dirs (disk w) in
    put_world (set_disk {| dirs := dirs';
                           index_files :=
                             <[wi := {| ix_schema := schema; ix_docs := [] |}]>
                               (index_files (disk w)) |} w);;
    mret {| ix_dir := wi |}.

Definition _whoosh_index (model : Instance) : M IndexHandle :=
  let name := cls_name (inst_class model) in
  w ← get_world;
  (if whoosh_indexes (app w) is None
   then put_world (set_whoosh_indexes ∅ w) else mret ());;
  w ← get_world;
  match default ∅ (whoosh_indexes (app w)) !! name with
  | Some indx => mret indx
  | None =>
      (match config (app w) !! "WHOOSH_BASE" with
       | Some base =>
           if bool_decide (base = "")
           then put_world
                  (set_config (<["WHOOSH_BASE" := "whoosh_index"]>
                                 (config (app w))) w)
           else mret ()
       | None =>
           put_world (set_config (<["WHOOSH_BASE" := "whoosh_index"]>
                                    (config (app w))) w)
       end);;
      w ← get_world;
      let wi := path_join (default "" (config (app w) !! "WHOOSH_BASE"))
                          name in
      '(schema, primary) ← lift (_get_whoosh_schema_and_primary model);
      indx ← open_or_create wi schema;
      w ← get_world;
      put_world (set_whoosh_indexes
                   (<[name := indx]> (default ∅ (whoosh_indexes (app w)))) w);;
      searcher ← _Searcher_init primary indx;
      q ← class_query (inst_class model);
      w ← get_world;
      put_world
        (set_classes
           (<[cls_id (inst_class model) :=
                {| query := ProxyQuery
                              (_QueryProxy_init q primary searcher model);
                   pure_whoosh := Some searcher |}]> (classes w)) w);;
      mret indx
  end.

(** *** What the two engines compute

    [text_holds] is the relational store's evaluation of a literal SQL
    predicate on a row, [engine_search] the index engine's search: the
    hits for a query over the given fields, in score order. [row_eq] and
    [row_lt] are Python's [==] and [<] on two record instances, which the
    comparison of two heap items falls back on when the ranks are equal. *)
Section Engines.
Context (text_holds : string → Instance → bool).
Context (engine_search :
  Index → list string → bool → PyValue → option nat → list Hit).
Context (row_eq row_lt : Instance → Instance → bool).

(** A row satisfies a criterion. The literal [null] is SQL's NULL, which
    selects no row; [column IN keys] compares the stringified column. *)
Definition holds (c : Criterion) (row : Instance) : bool :=
  match c with
  | TextClause sql =>
      if bool_decide (sql = "null") then false else text_holds sql row
  | InClause column keys =>
      match getattr row column ≫= unicode with
      | Ok k => bool_decide (k ∈ keys)
      | Raise _ => false
      end
  end.

(** [sqlalchemy.orm.Query.__iter__]: the rows of the table that satisfy
    every criterion, in the order of the store. *)
Definition sql_rows (table : list Instance) (cs : list Criterion)
  : list Instance :=
  filter (λ row, forallb (λ c, holds c row) cs = true) table.

(** [Query.filter(criterion)]: a copy of the query with one more
    criterion. *)
Definition Query_filter (q : QueryObj) (c : Criterion) : QueryObj :=
  match q with
  | PlainQuery cs => PlainQuery (cs ++ [c])
  | ProxyQuery p =>
      ProxyQuery {| criteria := criteria p ++ [c];
                    _primary_key_name := _primary_key_name p;
                    _whoosh_searcher := _whoosh_searcher p;
                    _model := _model p;
                    _whoosh_rank := _whoosh_rank p |}
  end.

(** *** [_EmptyQuery] *)
Definition _EmptyQuery (model : Instance) : M QueryObj :=
  q ← class_query (inst_class model);
  mret (Query_filter q (TextClause "null")).

(** *** [_QueryProxy.__iter__] *)

(** [(r1, row1) < (r2, row2)] on tuples: the first items that differ
    decide. *)
Definition tuple_lt (a b : nat * Instance) : bool :=
  if bool_decide (a.1 = b.1)
  then if row_eq a.2 b.2 then false else row_lt a.2 b.2
  else bool_decide (a.1 < b.1).

(** [self._whoosh_rank[unicode(getattr(row, self._primary_key_name))]] *)
Definition row_rank (primary_key_name : option string)
    (whoosh_rank : gmap string nat) (row : Instance) : PyResult nat :=
  v ← getattr_name row primary_key_name;
  k ← unicode v;
  dict_getitem whoosh_rank k.

(** The [for row in super_iter] loop. *)
Fixpoint push_rows (primary_key_name : option string)
    (whoosh_rank : gmap string nat) (super_iter : list Instance)
    (ordered_by_whoosh_rank : list (nat * Instance))
  : PyResult (list (nat * Instance)) :=
  match super_iter with
  | [] => Ok ordered_by_whoosh_rank
  | row :: super_iter =>
      rank ← row_rank primary_key_name whoosh_rank row;
      heap ← Heapq.heappush tuple_lt ordered_by_whoosh_rank (rank, row);
      push_rows primary_key_name whoosh_rank super_iter heap
  end.

(** The generator [_inner], run to exhaustion:
    [while ordered_by_whoosh_rank: yield heappop(ordered_by_whoosh_rank)[1]] *)
Equations? _inner (ordered_by_whoosh_rank : list (nat * Instance))
  : PyResult (list Instance) by wf (length ordered_by_whoosh_rank) lt :=
  _inner [] := Ok [];
  _inner heap with inspect (Heapq.heappop tuple_lt heap) := {
    | exist _ (Raise e) _ => Raise e
    | exist _ (Ok (item, heap')) Hpop => cons item.2 <$> _inner heap' }.
Proof. by apply Heapq.heappop_length in Hpop. Qed.

(** [__iter__], with the rows it yields collected in a list. [table] is
    the content of the relational store. *)
Definition __iter__ (table : list Instance) (self : _QueryProxy)
  : PyResult (list Instance) :=
  let super_iter := sql_rows table (criteria self) in
  match _whoosh_rank self with
  | None => Ok super_iter
  | Some whoosh_rank =>
      ordered_by_whoosh_rank ←
        push_rows (_primary_key_name self) whoosh_rank super_iter [];
      _inner ordered_by_whoosh_rank
  end.

(** Iterating any query object. *)
Definition iterate (table : list Instance) (q : QueryObj)
  : PyResult (list Instance) :=
  match q with
  | PlainQuery cs => Ok (sql_rows table cs)
  | ProxyQuery p => __iter__ table p
  end.

(** *** [_Searcher.__call__] *)
Definition _Searcher_call (self : Searcher) (query : PyValue)
    (limit : option nat) (fields : option (list string)) (or_ : bool)
  : M (list Hit) :=
  let fields := default (_all_fields self) fields in
  ix ← read_index (_index self);
  mret (engine_search ix fields or_ query limit).

(** *** [_QueryProxy.whoosh_search] *)

(** [result[name]] on a hit *)
Definition hit_getitem (result : Hit) (name : option string)
  : PyResult string :=
  match name with
  | Some name => dict_getitem result name
  | None => Raise (KeyError VNone)
  end.

(** The [for rank, result in enumerate(results)] loop. *)
Fixpoint rank_loop (primary_key_name : option string) (results : list Hit)
    (rank : nat) (result_set : gset string) (result_ranks : gmap string nat)
  : PyResult (gset string * gmap string nat) :=
  match results with
  | [] => Ok (result_set, result_ranks)
  | result :: results =>
      pk ← hit_getitem result primary_key_name;
      rank_loop primary_key_name results (S rank)
                ({[pk]} ∪ result_set) (<[pk := rank]> result_ranks)
  end.

(** [if not isinstance(query, unicode): query = unicode(query)] *)
Definition coerce_query (query : PyValue) : PyResult PyValue :=
  if is_unicode query then Ok query else VUnicode <$> unicode query.

Definition whoosh_search (self : _QueryProxy) (query : PyValue)
    (limit : option nat) (fields : option (list string)) (or_ : bool)
  : M QueryObj :=
  query ← lift (coerce_query query);
  results ← _Searcher_call (_whoosh_searcher self) query limit fields or_;
  if bool_decide (length results = 0)
  then _EmptyQuery (_model self)
  else
    '(result_set, result_ranks) ←
      lift (rank_loop (_primary_key_name self) results 0 ∅ ∅);
    column ← lift (match _primary_key_name self with
                   | Some name => Ok name
                   | None =>
                       Raise (TypeError
                                "getattr(): attribute name must be string")
                   end);
    mret (ProxyQuery {| criteria := criteria self
                                      ++ [InClause column result_set];
                        _primary_key_name := _primary_key_name self;
                        _whoosh_searcher := _whoosh_searcher self;
                        _model := _model self;
                        _whoosh_rank := Some result_ranks |}).

End Engines.

(** *** [_after_flush] *)

(** The first loop: group the changes by the name of their type. *)
Definition collect_step (bytype : gmap string (list (bool * Instance)))
    (change : Instance * string) : gmap string (list (bool * Instance)) :=
  let update := bool_decide (change.2 ∈ ["update"; "insert"]) in
  if has_searchable change.1
  then
    let name := cls_name (inst_class change.1) in
    <[name := default [] (bytype !! name) ++ [(update, change.1)]]> bytype
  else bytype.

Definition collect (changes : list (Instance * string))
  : gmap string (list (bool * Instance)) :=
  foldl collect_step ∅ changes.

(** The [for key in searchable] loop that fills [attrs]. *)
Fixpoint build_attrs (model : string) (v : Instance)
    (searchable : list string) (attrs : Document) : PyResult Document :=
  match searchable with
  | [] => Ok attrs
  | key :: searchable =>
      match getattr v key with
      | Raise (AttributeError _) =>
          Raise (AttributeError
                   (model +:+ " does not have __searchable__ field " +:+ key))
      | Raise e => Raise e
      | Ok x =>
          text ← unicode x;
          build_attrs model v searchable (<[key := text]> attrs)
      end
  end.

(** The body of [for update, v in values]. *)
Definition write_value (model : string) (primary_field : option string)
    (searchable : list string) (writer : Writer)
    (update : bool) (v : Instance) : PyResult Writer :=
  if update then
    attrs ← build_attrs model v searchable ∅;
    match primary_field with
    | Some primary_field =>
        pk ← getattr v primary_field ≫= unicode;
        Ok (update_document writer (<[primary_field := pk]> attrs))
    | None => Raise (TypeError "getattr(): attribute name must be string")
    end
  else
    match primary_field with
    | Some primary_field =>
        pk ← getattr v primary_field ≫= unicode;
        Ok (delete_by_term writer primary_field pk)
    | None => Raise (TypeError "getattr(): attribute name must be string")
    end.

Fixpoint write_values (model : string) (primary_field : option string)
    (searchable : list string) (values : list (bool * Instance))
    (writer : Writer) : PyResult Writer :=
  match values with
  | [] => Ok writer
  | (update, v) :: values =>
      writer ← write_value model primary_field searchable writer update v;
      write_values model primary_field searchable values writer
  end.

(** [index.writer()]: a writer on the committed documents. *)
Definition index_writer (indx : IndexHandle) : M Writer :=
  ix ← read_index indx;
  mret {| w_schema := ix_schema ix; w_docs := ix_docs ix |}.

(** [writer.commit()]: what [with] does when its body returns. *)
Definition commit (indx : IndexHandle) (writer : Writer) : M unit := λ w,
  (Ok (),
   set_disk {| dirs := dirs (disk w);
               index_files :=
                 <[ix_dir indx := {| ix_schema := w_schema writer;
                                     ix_docs := w_docs writer |}]>
                   (index_files (disk w)) |} w).

(** The body of [for model, values in bytype.iteritems()], up to the
    loop over [values]: the index of the type, a writer on it, and
    [primary_field] and [searchable] of the first record. *)
Definition open_batch (values : list (bool * Instance))
  : M (IndexHandle * Writer * option string * list string) :=
  first ← lift (snd <$> list_getitem values 0);
  index ← _whoosh_index first;
  writer ← index_writer index;
  searcher ← class_pure_whoosh (inst_class first);
  let primary_field := primary_key_name searcher in
  searchable ← lift (get_searchable first);
  mret (index, writer, primary_field, searchable).

(** The whole body. When the block under [with] raises, the writer is
    cancelled and nothing is written; when it returns, the writer
    commits. *)
Definition index_batch (model : string) (values : list (bool * Instance))
  : M unit :=
  '(index, writer, primary_field, searchable) ← open_batch values;
  writer ← lift (write_values model primary_field searchable values writer);
  commit index writer.

Fixpoint for_each {A : Type} (body : A → M unit) (l : list A) : M unit :=
  match l with
  | [] => mret ()
  | x :: l => body x;; for_each body l
  end.

(** [bytype.iteritems()] walks the dict in an order that Python leaves
    open; [map_to_list] stands for it. What is proved of the hook either
    holds for every order of the batches or names the order as a
    hypothesis. *)
Definition _after_flush (changes : list (Instance * string)) : M unit :=
  let bytype := collect changes in
  for_each (λ '(model, values), index_batch model values)
           (map_to_list bytype).

End Whoosh.
Export Whoosh.


(** ** A concrete scenario

    The record type [Article{id, title, body}] with [title] and [body]
    searchable, used to run the module on concrete inputs. *)

Module Scenario.

Definition Article : PyClass :=
  {| cls_id := "app.models.Article";
     cls_name := "Article";
     cls_searchable := Some ["title"; "body"];
     cls_columns := [ {| col_name := "id"; col_primary_key := true;
                         col_type := TInteger |};
                      {| col_name := "title"; col_primary_key := false;
                         col_type := TString |};
                      {| col_name := "body"; col_primary_key := false;
                         col_type := TText |} ] |}.

Definition article (id : Z) (title body : string) : Instance :=
  {| inst_class := Article;
     inst_attrs := {[ "id" := VInt id; "title" := VUnicode title;
                      "body" := VUnicode body ]} |}.

Definition table : list Instance :=
  [ article 1 "red fox" "jumps"; article 2 "blue sky" "fox runs";
    article 3 "green fox" "sleeps" ].

(** An article without the attribute [body], and a commit that inserts
    an article and then updates that one. *)
Definition draft : Instance :=
  {| inst_class := Article;
     inst_attrs := {[ "id" := VInt 2; "title" := VUnicode "untitled" ]} |}.

Definition commit_with_draft : list (Instance * string) :=
  [ (article 1 "red fox" "jumps", "insert"); (draft, "update") ].

(** The schema of the index of [Article]. *)
Definition article_schema : Schema :=
  {[ "id" := ID_stored_unique; "title" := TEXT_stemming;
     "body" := TEXT_stemming ]}.

(** A record type whose primary key is a searchable string column. *)
Definition Tag : PyClass :=
  {| cls_id := "app.models.Tag";
     cls_name := "Tag";
     cls_searchable := Some ["slug"; "label"];
     cls_columns := [ {| col_name := "slug"; col_primary_key := true;
                         col_type := TString |};
                      {| col_name := "label"; col_primary_key := false;
                         col_type := TString |} ] |}.

Definition tag (slug label : string) : Instance :=
  {| inst_class := Tag;
     inst_attrs := {[ "slug" := VUnicode slug; "label" := VUnicode label ]} |}.

(** A record type with a composite primary key and a searchable column
    that is not textual. *)
Definition Line : PyClass :=
  {| cls_id := "app.models.Line";
     cls_name := "Line";
     cls_searchable := Some ["note"; "quantity"];
     cls_columns := [ {| col_name := "order_id"; col_primary_key := true;
                         col_type := TInteger |};
                      {| col_name := "position"; col_primary_key := true;
                         col_type := TInteger |};
                      {| col_name := "note"; col_primary_key := false;
                         col_type := TText |};
                      {| col_name := "quantity"; col_primary_key := false;
                         col_type := TInteger |} ] |}.

Definition line (order position quantity : Z) (note : string) : Instance :=
  {| inst_class := Line;
     inst_attrs := {[ "order_id" := VInt order; "position" := VInt position;
                      "note" := VUnicode note;
                      "quantity" := VInt quantity ]} |}.

(** A record type that declares no searchable attributes. *)
Definition Plain : PyClass :=
  {| cls_id := "app.models.Plain";
     cls_name := "Plain";
     cls_searchable := None;
     cls_columns := [ {| col_name := "id"; col_primary_key := true;
                         col_type := TInteger |} ] |}.

Definition plain (id : Z) : Instance :=
  {| inst_class := Plain; inst_attrs := {[ "id" := VInt id ]} |}.

(** A second record type named [Article], of another module. *)
Definition Reprint : PyClass :=
  {| cls_id := "blog.models.Article";
     cls_name := "Article";
     cls_searchable := Some ["title"];
     cls_columns := [ {| col_name := "id"; col_primary_key := true;
                         col_type := TInteger |};
                      {| col_name := "title"; col_primary_key := false;
                         col_type := TString |} ] |}.

Definition reprint (id : Z) (title : string) : Instance :=
  {| inst_class := Reprint;
     inst_attrs := {[ "id" := VInt id; "title" := VUnicode title ]} |}.

(** A relational store whose other literal predicates select every row;
    instances compared by identity are never equal nor ordered. *)
Definition any_text : string → Instance → bool := λ _ _, true.
Definition never : Instance → Instance → bool := λ _ _, false.

(** An index engine that returns every document, the latest first. *)
Definition latest_first
  : Index → list string → bool → PyValue → option nat → list Hit :=
  λ ix _ _ _ _, reverse (ix_docs ix).

(** An index engine whose hits expose the field [title] only. *)
Definition titles_only
  : Index → list string → bool → PyValue → option nat → list Hit :=
  λ ix _ _ _ _, filter (λ '(name, _), name = "title") <$> ix_docs ix.

(** A comparison of records by title, for both [==] and [<]. *)
Definition by_title : Instance → Instance → bool :=
  λ a b, bool_decide (inst_attrs a !! "title" = inst_attrs b !! "title").

(** An index engine that finds nothing. *)
Definition no_hits
  : Index → list string → bool → PyValue → option nat → list Hit :=
  λ _ _ _ _ _, [].

Definition article_searcher : Searcher :=
  {| primary_key_name := Some "id";
     _index := {| ix_dir := "whoosh_index/Article" |};
     _all_fields := ["body"; "title"] |}.

Definition proxy (rank : option (gmap string nat)) : _QueryProxy :=
  {| criteria := [];
     _primary_key_name := Some "id";
     _whoosh_searcher := article_searcher;
     _model := article 1 "red fox" "jumps";
     _whoosh_rank := rank |}.

(** The state of a fresh process: no registry yet, no configuration, an
    empty disk; [Article.query] is the plain relational query. *)
Definition fresh : World :=
  {| app := {| whoosh_indexes := None; config := ∅ |};
     disk := {| dirs := ∅; index_files := ∅ |};
     classes := {[ "app.models.Article" :=
                     {| query := PlainQuery []; pure_whoosh := None |} ]} |}.

(** A fresh process that has the record type [Tag]. *)
Definition fresh_tags : World :=
  set_classes {[ "app.models.Tag" :=
                   {| query := PlainQuery []; pure_whoosh := None |} ]} fresh.

(** The state after the three articles of [table] were committed. *)
Definition indexed : World :=
  (_after_flush ((λ v, (v, "insert")) <$> table) fresh).2.

(** The state [indexed] of a process that also has the record types
    [Reprint] and [Line], neither committed yet. *)
Definition two_modules : World :=
  set_classes
    (<["blog.models.Article" := {| query := PlainQuery [];
                                   pure_whoosh := None |}]>
       (<["app.models.Line" := {| query := PlainQuery [];
                                  pure_whoosh := None |}]>
          (classes indexed)))
    indexed.

End Scenario.

(** ** Predicates and functions of the specification

    What the properties below are stated with. *)

Module Specs.

(** *** Heaps

    [key] is the sort key of a heap item; the order of [heapq] compares
    items by it. *)
Section Heaps.
Context {T : Type} (key : T → nat).

(** The element at [i] is not below its parent. *)
Definition ordered_at (h : list T) (i : nat) : Prop :=
  ∀ x p, h !! i = Some x → h !! Heapq.parent_of i = Some p → key p ≤ key x.

(** The heap invariant of [heapq]: [heap[(k-1)>>1] <= heap[k]] for all [k]. *)
Definition heap_inv (h : list T) : Prop :=
  ∀ i, 0 < i → ordered_at h i.

(** The invariant but for the edge above [pos]; the children of [pos] are
    already not below the parent of [pos]. *)
Definition hole_up_inv (h : list T) (pos : nat) : Prop :=
  (∀ i, 0 < i → i ≠ pos → ordered_at h i) ∧
  (∀ c x g, 0 < pos → 0 < c → Heapq.parent_of c = pos →
            h !! c = Some x → h !! Heapq.parent_of pos = Some g →
            key g ≤ key x).

(** The invariant but for the edges above and below [pos]. *)
Definition hole_down_inv (h : list T) (pos : nat) : Prop :=
  (∀ i, 0 < i → i ≠ pos → Heapq.parent_of i ≠ pos → ordered_at h i) ∧
  (∀ c x g, 0 < pos → 0 < c → Heapq.parent_of c = pos →
            h !! c = Some x → h !! Heapq.parent_of pos = Some g →
            key g ≤ key x).

End Heaps.

(** *** Iteration *)

(** A heap item carries the rank of its row. *)
Definition ranked (pk : option string) (ranks : gmap string nat)
    (item : nat * Instance) : Prop :=
  row_rank pk ranks item.2 = Ok item.1.

(** *** The schema deriver *)

(** The field kind the loop leaves for a column: the [TEXT] assignment
    comes after the [ID] assignment and overwrites it. *)
Definition field_kind (searchable : list string) (c : Column)
  : option FieldKind :=
  if bool_decide (col_name c ∈ searchable) && is_textual (col_type c)
  then Some TEXT_stemming
  else if col_primary_key c then Some ID_stored_unique
  else None.

(** One turn of the loop over the columns. *)
Definition schema_step (searchable : list string) (c : Column)
    (schema : Schema) : Schema :=
  let schema := if col_primary_key c
                then <[col_name c := ID_stored_unique]> schema
                else schema in
  if bool_decide (col_name c ∈ searchable)
  then if is_textual (col_type c)
       then <[col_name c := TEXT_stemming]> schema
       else schema
  else schema.

(** *** The index registry *)

(** The base directory [_whoosh_index] uses: [WHOOSH_BASE] of the
    configuration, or ['whoosh_index'] when it is unset or empty. *)
Definition whoosh_base (w : World) : string :=
  match config (app w) !! "WHOOSH_BASE" with
  | Some base => if bool_decide (base = "") then "whoosh_index" else base
  | None => "whoosh_index"
  end.

(** The directory of the index of a record type. *)
Definition index_dir (w : World) (model : Instance) : string :=
  path_join (whoosh_base w) (cls_name (inst_class model)).

(** *** The change collector and the index writer *)




(** The key of a record: its stringified primary key. *)
Definition key_of (pf : string) (v : Instance) : PyResult string :=
  getattr v pf ≫= unicode.

(** The documents of an index that carry the key [k]. *)
Definition docs_with_key (pf k : string) (ix : Index) : list Document :=
  filter (λ d, d !! pf = Some k) (ix_docs ix).

(** *** What the commit hook keeps of a state

    The cached handles, the stored indexes with their schemas, and the
    configuration but for the base path. *)
Definition keeps (w w' : World) : Prop :=
  (∀ name indx,
     default ∅ (whoosh_indexes (app w)) !! name = Some indx →
     default ∅ (whoosh_indexes (app w')) !! name = Some indx) ∧
  (∀ d ix, index_files (disk w) !! d = Some ix →
           ∃ ix', index_files (disk w') !! d = Some ix' ∧
                  ix_schema ix' = ix_schema ix) ∧
  (∀ key, key ≠ "WHOOSH_BASE" →
          config (app w') !! key = config (app w) !! key).

End Specs.
Export Specs.

(** * Properties

    ** The heap operations keep the heap invariant *)

Module HeapqFacts.
Import Heapq.

Lemma parent_of_child c pos :
  0 < c → parent_of c = pos → c = 2 * pos + 1 ∨ c = 2 * pos + 2.
Proof.
  rewrite parent_of_div. intros Hc <-.
  pose proof (Nat.div_mod_eq (c - 1) 2).
  pose proof (Nat.mod_upper_bound (c - 1) 2). lia.
Qed.

Lemma parent_of_left pos : parent_of (2 * pos + 1) = pos.
Proof.
  rewrite parent_of_div.
  replace (2 * pos + 1 - 1) with (pos * 2) by lia.
  by rewrite Nat.div_mul.
Qed.

Lemma parent_of_right pos : parent_of (2 * pos + 2) = pos.
Proof.
  rewrite parent_of_div.
  replace (2 * pos + 2 - 1) with (1 + pos * 2) by lia.
  by rewrite Nat.div_add.
Qed.

(** The comparison [cmp_lt] need not be an order: it is enough that it
    agrees with a sort key, as the comparison of [(rank, row)] tuples
    agrees with the rank. *)
Section Order.
Context {T : Type} (cmp_lt : T → T → bool) (key : T → nat).
Hypothesis cmp_lt_true : ∀ a b, cmp_lt a b = true → key a ≤ key b.
Hypothesis cmp_lt_false : ∀ a b, cmp_lt a b = false → key b ≤ key a.

#[local] Abbreviation ordered_at := (Specs.ordered_at key).
#[local] Abbreviation heap_inv := (Specs.heap_inv key).
#[local] Abbreviation hole_up_inv := (Specs.hole_up_inv key).
#[local] Abbreviation hole_down_inv := (Specs.hole_down_inv key).

Lemma heap_inv_root h i x r :
  heap_inv h → h !! 0 = Some r → h !! i = Some x → key r ≤ key x.
Proof.
  intros Hh Hr. revert x. induction (lt_wf i) as [i _ IH]. intros x Hx.
  destruct (decide (i = 0)) as [->|Hi].
  { rewrite Hr in Hx. injection Hx as ->. lia. }
  assert (parent_of i < i) as Hlt by (apply parent_of_lt; lia).
  destruct (lookup_lt_is_Some_2 h (parent_of i)) as [p Hp].
  { apply lookup_lt_Some in Hx. lia. }
  specialize (IH _ Hlt _ Hp). specialize (Hh i ltac:(lia) _ _ Hx Hp). lia.
Qed.

Lemma hole_up_inv_step h pos x p :
  0 < pos → h !! pos = Some x → h !! parent_of pos = Some p →
  key x ≤ key p → hole_up_inv h pos →
  hole_up_inv (<[parent_of pos := x]> (<[pos := p]> h)) (parent_of pos).
Proof.
  intros Hpos Hx Hp Hxp [H1 H2].
  assert (parent_of pos < pos) as Hlt by by apply parent_of_lt.
  assert (pos < length h) as Hlen by by eapply lookup_lt_Some.
  assert (∀ j, j ≠ pos → j ≠ parent_of pos →
    <[parent_of pos := x]> (<[pos := p]> h) !! j = h !! j) as Hother.
  { intros j ??. by rewrite !list_lookup_insert_ne. }
  assert (<[parent_of pos := x]> (<[pos := p]> h) !! pos = Some p) as Hat.
  { rewrite list_lookup_insert_ne by lia. by rewrite list_lookup_insert_eq. }
  assert (<[parent_of pos := x]> (<[pos := p]> h) !! parent_of pos = Some x)
    as Hatp.
  { rewrite list_lookup_insert_eq; [done|]. rewrite length_insert. lia. }
  split.
  - intros i Hi Hne y q Hy Hq.
    assert (parent_of i < i) by by apply parent_of_lt.
    destruct (decide (i = pos)) as [->|Hip].
    { rewrite Hat in Hy. rewrite Hatp in Hq. by simplify_eq. }
    rewrite Hother in Hy by done.
    destruct (decide (parent_of i = pos)) as [Hpi|Hpi].
    { rewrite Hpi, Hat in Hq. simplify_eq. by eapply (H2 i). }
    destruct (decide (parent_of i = parent_of pos)) as [Hpp|Hpp].
    { rewrite Hpp, Hatp in Hq. simplify_eq.
      etrans; [exact Hxp|]. eapply (H1 i); [done..|]. by rewrite Hpp. }
    rewrite Hother in Hq by done. by eapply (H1 i).
  - intros c y g Hpp Hc Hpc Hy Hg.
    assert (parent_of (parent_of pos) < parent_of pos) by by apply parent_of_lt.
    assert (parent_of c < c) by by apply parent_of_lt.
    rewrite Hother in Hg by lia.
    assert (key g ≤ key p) by (eapply (H1 (parent_of pos)); [lia..|done|done]).
    destruct (decide (c = pos)) as [->|Hcp].
    { rewrite Hat in Hy. by simplify_eq. }
    rewrite Hother in Hy by lia.
    etrans; [done|]. eapply (H1 c); [done..|]. by rewrite Hpc.
Qed.

Lemma siftdown_loop_spec heap startpos pos newitem :
  startpos = 0 → pos < length heap →
  hole_up_inv (<[pos := newitem]> heap) pos →
  ∃ heap' pos',
    siftdown_loop cmp_lt heap startpos pos newitem = Ok (heap', pos') ∧
    pos' < length heap' ∧
    heap_inv (<[pos' := newitem]> heap') ∧
    <[pos' := newitem]> heap' ≡ₚ <[pos := newitem]> heap.
Proof.
  funelim (siftdown_loop cmp_lt heap startpos pos newitem);
    intros -> Hlen Hinv.
  - exists heap, pos. split_and!; [done..| |done].
    assert (pos = 0) as -> by lia. destruct Hinv as [H1 _].
    intros i Hi. apply H1; lia.
  - exfalso. unfold list_getitem in *.
    assert (parent_of pos < pos) by (apply parent_of_lt; lia).
    destruct (lookup_lt_is_Some_2 heap (parent_of pos)) as [p Hp]; [lia|].
    by rewrite Hp in Heq.
  - exists heap, pos. split_and!; [done..| |done].
    unfold list_getitem in *.
    destruct (heap !! parent_of pos) as [p|] eqn:Hp; simplify_eq.
    assert (parent_of pos < pos) by (apply parent_of_lt; lia).
    destruct Hinv as [H1 _]. intros i Hi.
    destruct (decide (i = pos)) as [->|]; [|by apply H1].
    intros y q Hy Hq. rewrite list_lookup_insert_eq in Hy by done.
    rewrite list_lookup_insert_ne in Hq by lia. simplify_eq.
    by apply cmp_lt_false.
  - unfold list_getitem, list_setitem in *.
    case_decide; [|done].
    destruct (heap !! parent_of pos) as [p|] eqn:Hp; simplify_eq.
    assert (parent_of pos < pos) by (apply parent_of_lt; lia).
    assert (<[parent_of pos:=newitem]> (<[pos:=parent]> heap) =
            <[parent_of pos:=newitem]>
              (<[pos:=parent]> (<[pos:=newitem]> heap))) as Heqv.
    { by rewrite list_insert_insert_eq. }
    destruct (H eq_refl) as (heap' & pos' & Hrun & Hlen' & Hinv' & Hperm).
    { rewrite length_insert. lia. }
    { rewrite Heqv. apply hole_up_inv_step; [lia| | | |done].
      - by rewrite list_lookup_insert_eq.
      - by rewrite list_lookup_insert_ne by lia.
      - by apply cmp_lt_true. }
    exists heap', pos'. split_and!; [done..|].
    rewrite Hperm, Heqv. apply Permutation_insert_swap.
    + by rewrite list_lookup_insert_eq.
    + by rewrite list_lookup_insert_ne by lia.
  - exfalso. unfold list_setitem in *. case_decide; [done|lia].
Qed.

Lemma _siftdown_spec heap pos :
  pos < length heap → hole_up_inv heap pos →
  ∃ heap', _siftdown cmp_lt heap 0 pos = Ok heap' ∧
           heap_inv heap' ∧ heap' ≡ₚ heap.
Proof.
  intros Hlen Hinv.
  destruct (lookup_lt_is_Some_2 heap pos Hlen) as [newitem Hnew].
  pose proof (list_insert_id _ _ _ Hnew) as Hid.
  destruct (siftdown_loop_spec heap 0 pos newitem)
    as (heap' & pos' & Hrun & Hlen' & Hinv' & Hperm); [done..| |].
  { by rewrite Hid. }
  exists (<[pos' := newitem]> heap'). rewrite Hid in Hperm.
  split_and!; [|done..].
  unfold _siftdown, list_getitem. rewrite Hnew. simpl. rewrite Hrun. simpl.
  unfold list_setitem. by rewrite decide_True.
Qed.

Lemma heap_inv_snoc_hole heap item :
  heap_inv heap → hole_up_inv (heap ++ [item]) (length heap).
Proof.
  intros Hinv. split.
  - intros i Hi Hne x p Hx Hp.
    assert (parent_of i < i) by by apply parent_of_lt.
    assert (i < length heap).
    { apply lookup_lt_Some in Hx. rewrite length_app in Hx. simpl in Hx. lia. }
    rewrite lookup_app_l in Hx, Hp by lia. by eapply Hinv.
  - intros c x g _ Hc Hpc Hx _.
    assert (parent_of c < c) by by apply parent_of_lt.
    apply lookup_lt_Some in Hx. rewrite length_app in Hx. simpl in Hx. lia.
Qed.

Lemma heappush_spec heap item :
  heap_inv heap →
  ∃ heap', heappush cmp_lt heap item = Ok heap' ∧
           heap_inv heap' ∧ heap' ≡ₚ item :: heap.
Proof.
  intros Hinv. unfold heappush.
  replace (length (heap ++ [item]) - 1) with (length heap)
    by (rewrite length_app; simpl; lia).
  destruct (_siftdown_spec (heap ++ [item]) (length heap))
    as (heap' & Hrun & Hinv' & Hperm).
  { rewrite length_app. simpl. lia. }
  { by apply heap_inv_snoc_hole. }
  exists heap'. split_and!; [done..|].
  rewrite Hperm. by rewrite Permutation_app_comm.
Qed.

Lemma smaller_child_spec heap pos :
  2 * pos + 1 < length heap →
  ∃ c x, smaller_child cmp_lt heap (length heap) (2 * pos + 1) = Ok c ∧
         heap !! c = Some x ∧ (c = 2 * pos + 1 ∨ c = 2 * pos + 2) ∧
         ∀ s y, 0 < s → parent_of s = pos → heap !! s = Some y →
                key x ≤ key y.
Proof.
  intros Hlen. unfold smaller_child, list_getitem.
  destruct (lookup_lt_is_Some_2 heap _ Hlen) as [l Hl].
  case_decide as Hr.
  - destruct (lookup_lt_is_Some_2 heap _ Hr) as [r Hrr].
    rewrite Hl, Hrr. simpl.
    destruct (cmp_lt l r) eqn:Hcmp.
    + exists (2 * pos + 1), l. split_and!; [done|done|by left|].
      intros s y Hs Hps Hy.
      destruct (parent_of_child _ _ Hs Hps) as [->| ->].
      * rewrite Hl in Hy. by simplify_eq.
      * replace (2 * pos + 2) with (2 * pos + 1 + 1) in Hy by lia.
        rewrite Hrr in Hy. simplify_eq. by apply cmp_lt_true.
    + exists (2 * pos + 1 + 1), r. split_and!; [done|done|right; lia|].
      intros s y Hs Hps Hy.
      destruct (parent_of_child _ _ Hs Hps) as [->| ->].
      * rewrite Hl in Hy. simplify_eq. by apply cmp_lt_false.
      * replace (2 * pos + 2) with (2 * pos + 1 + 1) in Hy by lia.
        rewrite Hrr in Hy. by simplify_eq.
  - exists (2 * pos + 1), l. split_and!; [done|done|by left|].
    intros s y Hs Hps Hy.
    destruct (parent_of_child _ _ Hs Hps) as [->| ->].
    + rewrite Hl in Hy. by simplify_eq.
    + apply lookup_lt_Some in Hy. lia.
Qed.

Lemma hole_down_inv_step h pos c x :
  hole_down_inv h pos → 0 < c → parent_of c = pos → h !! c = Some x →
  (∀ s y, 0 < s → parent_of s = pos → h !! s = Some y → key x ≤ key y) →
  hole_down_inv (<[pos := x]> h) c.
Proof.
  intros [H1 H2] Hc Hpc Hx Hmin.
  assert (pos < c) by (subst pos; by apply parent_of_lt).
  assert (pos < length h) by (apply lookup_lt_Some in Hx; lia).
  split.
  - intros i Hi Hic Hpic y q Hy Hq.
    assert (parent_of i < i) by by apply parent_of_lt.
    destruct (decide (i = pos)) as [->|Hip].
    { rewrite list_lookup_insert_eq in Hy by done.
      rewrite list_lookup_insert_ne in Hq by lia. simplify_eq.
      by eapply (H2 c). }
    rewrite list_lookup_insert_ne in Hy by done.
    destruct (decide (parent_of i = pos)) as [Hpi|Hpi].
    { rewrite Hpi, list_lookup_insert_eq in Hq by done. simplify_eq.
      by eapply Hmin. }
    rewrite list_lookup_insert_ne in Hq by done. by eapply (H1 i).
  - intros d y g _ Hd Hpd Hy Hg.
    assert (c < d) by (subst c; by apply parent_of_lt).
    rewrite Hpc, list_lookup_insert_eq in Hg by done.
    rewrite list_lookup_insert_ne in Hy by lia. injection Hg as <-.
    eapply (H1 d); [lia|lia|lia|done|]. by rewrite Hpd.
Qed.

Lemma siftup_loop_spec heap endpos pos :
  endpos = length heap → pos < length heap → hole_down_inv heap pos →
  ∃ heap' pos',
    siftup_loop cmp_lt heap endpos pos = Ok (heap', pos') ∧
    length heap' = length heap ∧ pos' < length heap' ∧
    length heap' ≤ 2 * pos' + 1 ∧ hole_down_inv heap' pos' ∧
    ∀ newitem, <[pos' := newitem]> heap' ≡ₚ <[pos := newitem]> heap.
Proof.
  funelim (siftup_loop cmp_lt heap endpos pos); intros -> Hlen Hinv.
  - exists heap, pos. by split_and!.
  - exfalso. destruct (smaller_child_spec heap pos) as (c & x & Hc & _); [lia|].
    congruence.
  - destruct (smaller_child_spec heap pos) as (c & x & Hc & Hx & Hrg & Hmin);
      [lia|].
    rewrite Hsc in Hc. injection Hc as <-.
    unfold list_getitem, list_setitem in Heq. rewrite Hx in Heq. simpl in Heq.
    rewrite decide_True in Heq by done. injection Heq as <-.
    assert (0 < childpos ∧ parent_of childpos = pos) as [Hc0 Hpc].
    { destruct Hrg as [->| ->]; split; try lia;
        [apply parent_of_left|apply parent_of_right]. }
    destruct H as (heap' & pos' & Hrun & Hlen' & Hpos' & Hleaf & Hinv' & Hperm).
    { by rewrite length_insert. }
    { rewrite length_insert. by eapply lookup_lt_Some. }
    { by apply hole_down_inv_step. }
    rewrite length_insert in Hlen'.
    exists heap', pos'. split_and!; [done..|].
    intros newitem. rewrite Hperm.
    rewrite <-(list_insert_insert_eq heap pos x newitem).
    apply Permutation_insert_swap.
    + by rewrite list_lookup_insert_eq.
    + rewrite list_lookup_insert_ne by lia. done.
  - exfalso.
    destruct (smaller_child_spec heap pos) as (c & x & Hc & Hx & Hrg & Hmin);
      [lia|].
    rewrite Hsc in Hc. injection Hc as <-.
    unfold list_getitem, list_setitem in Heq. rewrite Hx in Heq. simpl in Heq.
    by rewrite decide_True in Heq.
Qed.

Lemma hole_down_inv_leaf h pos x :
  pos < length h → length h ≤ 2 * pos + 1 → hole_down_inv h pos →
  hole_up_inv (<[pos := x]> h) pos.
Proof.
  intros Hlen Hleaf [H1 H2]. split.
  - intros i Hi Hip y q Hy Hq.
    destruct (decide (parent_of i = pos)) as [Hpi|Hpi].
    { apply lookup_lt_Some in Hy. rewrite length_insert in Hy.
      destruct (parent_of_child _ _ Hi Hpi); lia. }
    rewrite list_lookup_insert_ne in Hy, Hq by done. by eapply (H1 i).
  - intros c y g _ Hc Hpc Hy _.
    apply lookup_lt_Some in Hy. rewrite length_insert in Hy.
    destruct (parent_of_child _ _ Hc Hpc); lia.
Qed.

Lemma _siftup_spec heap :
  0 < length heap → hole_down_inv heap 0 →
  ∃ heap', _siftup cmp_lt heap 0 = Ok heap' ∧
           heap_inv heap' ∧ heap' ≡ₚ heap.
Proof.
  intros Hlen Hinv.
  destruct (lookup_lt_is_Some_2 heap 0 Hlen) as [newitem Hnew].
  destruct (siftup_loop_spec heap (length heap) 0)
    as (heap' & pos' & Hrun & Hlen' & Hpos' & Hleaf & Hinv' & Hperm);
    [done..|].
  destruct (_siftdown_spec (<[pos' := newitem]> heap') pos')
    as (heap'' & Hrun' & Hinv'' & Hperm').
  { by rewrite length_insert. }
  { by apply hole_down_inv_leaf. }
  exists heap''. split_and!; [|done|].
  - unfold _siftup, list_getitem. rewrite Hnew. simpl. rewrite Hrun. simpl.
    unfold list_setitem. rewrite decide_True by done. simpl. done.
  - rewrite Hperm', Hperm. by rewrite list_insert_id.
Qed.

Lemma list_pop_snoc {A} (l : list A) x : list_pop (l ++ [x]) = Ok (x, l).
Proof. unfold list_pop. by rewrite last_snoc, removelast_last. Qed.

Lemma heap_inv_prefix h x : heap_inv (h ++ [x]) → heap_inv h.
Proof.
  intros Hinv i Hi y p Hy Hp.
  eapply (Hinv i Hi); by apply lookup_app_l_Some.
Qed.

Lemma heappop_spec heap :
  heap_inv heap → heap ≠ [] →
  ∃ x heap', heappop cmp_lt heap = Ok (x, heap') ∧
             heap_inv heap' ∧ x :: heap' ≡ₚ heap ∧
             length heap' < length heap ∧
             ∀ y, y ∈ heap → key x ≤ key y.
Proof.
  intros Hinv Hne.
  destruct (exists_last Hne) as (body & lastelt & ->).
  unfold heappop. rewrite list_pop_snoc. simpl.
  destruct body as [|root body].
  - exists lastelt, []. split_and!; [done| |done|simpl; lia|].
    + intros i Hi y p Hy. by rewrite lookup_nil in Hy.
    + intros y ->%list_elem_of_singleton. done.
  - destruct (_siftup_spec (lastelt :: body))
      as (heap' & Hrun & Hinv' & Hperm); [simpl; lia| |].
    { split; [|intros; lia].
      intros i Hi _ Hpi y p Hy Hp.
      assert (0 < parent_of i).
      { destruct (parent_of i); [done|lia]. }
      destruct i as [|i]; [lia|]. destruct (parent_of (S i)) as [|j] eqn:Hj;
        [lia|]. simpl in Hy, Hp.
      assert (S i < length (root :: body)).
      { apply lookup_lt_Some in Hy. simpl. lia. }
      eapply (Hinv (S i)); [lia| |].
      - rewrite lookup_app_l by done. done.
      - rewrite Hj, lookup_app_l; [done|].
        simpl in *. apply parent_of_lt in Hi. lia. }
    simpl. unfold list_setitem. simpl. rewrite Hrun. simpl.
    exists root, heap'. split_and!; [done|done| | |].
    + rewrite Hperm. simpl. constructor. apply Permutation_cons_append.
    + apply Permutation_length in Hperm. rewrite Hperm, length_app. simpl. lia.
    + intros y [j Hy]%list_elem_of_lookup.
      by eapply (heap_inv_root _ j y root Hinv).
Qed.

End Order.
End HeapqFacts.

(** ** Iteration of a query proxy *)

Module IterFacts.
Import Heapq HeapqFacts.

Section Iter.
Context (text_holds : string → Instance → bool).
Context (row_eq row_lt : Instance → Instance → bool).

Lemma tuple_lt_true a b : tuple_lt row_eq row_lt a b = true → a.1 ≤ b.1.
Proof.
  unfold tuple_lt. case_bool_decide as Heq; [lia|].
  intros ?%bool_decide_eq_true. lia.
Qed.

Lemma tuple_lt_false a b : tuple_lt row_eq row_lt a b = false → b.1 ≤ a.1.
Proof.
  unfold tuple_lt. case_bool_decide as Heq; [lia|].
  intros ?%bool_decide_eq_false. lia.
Qed.

Lemma push_rows_spec pk ranks rows heap :
  heap_inv fst heap → Forall (ranked pk ranks) heap →
  Forall (λ row, ∃ r, row_rank pk ranks row = Ok r) rows →
  ∃ heap', push_rows row_eq row_lt pk ranks rows heap = Ok heap' ∧
           heap_inv fst heap' ∧ Forall (ranked pk ranks) heap' ∧
           heap'.*2 ≡ₚ rows ++ heap.*2.
Proof.
  revert heap. induction rows as [|row rows IH]; intros heap Hinv Hrk Hall.
  { exists heap. by split_and!. }
  apply Forall_cons in Hall as [[r Hr] Hall]. simpl. rewrite Hr. simpl.
  destruct (heappush_spec (tuple_lt row_eq row_lt) fst tuple_lt_true
              tuple_lt_false heap (r, row) Hinv)
    as (heap1 & -> & Hinv1 & Hperm1). simpl.
  destruct (IH heap1) as (heap' & Hrun & Hinv' & Hrk' & Hperm'); [done| |done|].
  { rewrite Hperm1. by constructor. }
  exists heap'. split_and!; [done..|].
  rewrite Hperm', Hperm1. simpl. by rewrite Permutation_middle.
Qed.

Lemma _inner_spec heap :
  heap_inv fst heap →
  ∃ items, _inner row_eq row_lt heap = Ok (items.*2) ∧
           items ≡ₚ heap ∧
           StronglySorted (λ a b, a.1 ≤ b.1) items.
Proof.
  funelim (_inner row_eq row_lt heap); intros Hinv.
  - exists []. split_and!; [done|done|constructor].
  - destruct (heappop_spec (tuple_lt row_eq row_lt) fst tuple_lt_true
                tuple_lt_false (p :: l) Hinv)
      as (x & h' & Hrun' & Hinv' & Hperm & _ & Hmin); [done|].
    rewrite Hpop in Hrun'. injection Hrun' as <- <-.
    destruct (H Hinv') as (items & Hrun & Hperm' & Hsorted).
    exists (item :: items). split_and!.
    + rewrite Hrun. done.
    + by rewrite Hperm', Hperm.
    + constructor; [done|]. apply Forall_forall. intros y Hy.
      apply Hmin. rewrite <-Hperm, <-Hperm'. by right.
  - exfalso.
    destruct (heappop_spec (tuple_lt row_eq row_lt) fst tuple_lt_true
                tuple_lt_false (p :: l) Hinv)
      as (x & h' & Hrun' & _); [done|].
    congruence.
Qed.

Lemma sorted_ranks (items : list (nat * Instance)) :
  StronglySorted (λ a b, a.1 ≤ b.1) items → StronglySorted le (items.*1).
Proof.
  induction 1 as [|a items _ IH Hall]; simpl; constructor; [done|].
  apply Forall_fmap. done.
Qed.

Lemma ranked_Forall2 pk ranks (items : list (nat * Instance)) :
  Forall (ranked pk ranks) items →
  Forall2 (λ row r, row_rank pk ranks row = Ok r) (items.*2) (items.*1).
Proof. induction 1; simpl; by constructor. Qed.

(** C1. Iterating a query proxy whose rank map is [None] returns the rows
    of the relational iteration unchanged, in the order of the store.
    With a rank map attached (and every row's stringified primary key in
    it), iteration yields exactly the rows of the relational iteration,
    each once, in non-decreasing rank order. *)
Theorem iter_rank_order table self :
  (_whoosh_rank self = None →
   __iter__ text_holds row_eq row_lt table self
   = Ok (sql_rows text_holds table (criteria self))) ∧
  (∀ ranks,
     _whoosh_rank self = Some ranks →
     Forall (λ row, ∃ r, row_rank (_primary_key_name self) ranks row = Ok r)
            (sql_rows text_holds table (criteria self)) →
     ∃ out rs,
       __iter__ text_holds row_eq row_lt table self = Ok out ∧
       out ≡ₚ sql_rows text_holds table (criteria self) ∧
       Forall2 (λ row r, row_rank (_primary_key_name self) ranks row = Ok r)
               out rs ∧
       StronglySorted le rs).
Proof.
  unfold __iter__. split; [by intros ->|]. intros ranks -> Hall.
  destruct (push_rows_spec (_primary_key_name self) ranks
              (sql_rows text_holds table (criteria self)) [])
    as (heap & -> & Hinv & Hrk & Hperm); [|done|done|].
  { intros i _ x p Hx. by rewrite lookup_nil in Hx. }
  simpl.
  destruct (_inner_spec heap Hinv) as (items & -> & Hperm' & Hsorted).
  exists (items.*2), (items.*1). split_and!; [done| | |].
  - rewrite Hperm', Hperm. simpl. by rewrite app_nil_r.
  - apply ranked_Forall2. by rewrite Hperm'.
  - by apply sorted_ranks.
Qed.

Lemma push_rows_missing pk ranks rows heap :
  heap_inv fst heap →
  Forall (λ row, ∃ k, key_of pk row = Ok k) rows →
  Exists (λ row, ∃ k, key_of pk row = Ok k ∧ ranks !! k = None) rows →
  ∃ pre row post k,
    rows = pre ++ row :: post ∧
    Forall (λ row, ∃ r, row_rank (Some pk) ranks row = Ok r) pre ∧
    key_of pk row = Ok k ∧ ranks !! k = None ∧
    push_rows row_eq row_lt (Some pk) ranks rows heap
    = Raise (KeyError (VUnicode k)).
Proof.
  revert heap. induction rows as [|row rows IH]; intros heap Hinv Hall Hex.
  { by apply Exists_nil in Hex. }
  apply Forall_cons in Hall as [[k Hk] Hall].
  assert (row_rank (Some pk) ranks row = dict_getitem ranks k) as Hrank.
  { unfold row_rank, key_of in *. simpl.
    destruct (getattr row pk) as [v|]; [|done]. simpl in *. by rewrite Hk. }
  unfold dict_getitem in Hrank.
  destruct (ranks !! k) as [r|] eqn:Hr.
  - apply Exists_cons in Hex as [(k' & Hk' & Hnone)|Hex]; [congruence|].
    destruct (heappush_spec (tuple_lt row_eq row_lt) fst tuple_lt_true
                tuple_lt_false heap (r, row) Hinv)
      as (heap1 & Hpush & Hinv1 & _).
    destruct (IH heap1 Hinv1 Hall Hex)
      as (pre & row' & post & k' & -> & Hpre & Hk' & Hn & Hrun).
    exists (row :: pre), row', post, k'. split_and!; [done| |done..|].
    + constructor; [by exists r|done].
    + simpl. rewrite Hrank. simpl. by rewrite Hpush.
  - exists [], row, rows, k. split_and!; [done..|].
    simpl. by rewrite Hrank.
Qed.

(** C2 (amended). With a rank map attached, when some row of the
    relational iteration has a stringified primary key that the rank map
    lacks, iteration yields no row and raises the [KeyError] of the rank
    map lookup, for the key of the first such row. *)
Theorem iter_missing_rank_raises table self ranks pk :
  _whoosh_rank self = Some ranks →
  _primary_key_name self = Some pk →
  Forall (λ row, ∃ k, key_of pk row = Ok k)
         (sql_rows text_holds table (criteria self)) →
  Exists (λ row, ∃ k, key_of pk row = Ok k ∧ ranks !! k = None)
         (sql_rows text_holds table (criteria self)) →
  ∃ pre row post k,
    sql_rows text_holds table (criteria self) = pre ++ row :: post ∧
    Forall (λ row, ∃ r, row_rank (Some pk) ranks row = Ok r) pre ∧
    key_of pk row = Ok k ∧ ranks !! k = None ∧
    __iter__ text_holds row_eq row_lt table self
    = Raise (KeyError (VUnicode k)).
Proof.
  intros Hranks Hpk Hall Hex. unfold __iter__. rewrite Hranks, Hpk.
  destruct (push_rows_missing pk ranks
              (sql_rows text_holds table (criteria self)) [])
    as (pre & row & post & k & Hrows & Hpre & Hk & Hnone & Hrun);
    [|done|done|].
  { intros i _ x p Hx. by rewrite lookup_nil in Hx. }
  exists pre, row, post, k. split_and!; [done..|]. by rewrite Hrun.
Qed.

End Iter.
End IterFacts.

Module IterExamples.
Import Scenario IterFacts.

Lemma iter_rank_order_witness :
  __iter__ any_text never never table (proxy None)
  = Ok (sql_rows any_text table (criteria (proxy None))) ∧
  ∃ out rs,
    __iter__ any_text never never table
             (proxy (Some {[ "1" := 2; "2" := 0; "3" := 1 ]})) = Ok out ∧
    out ≡ₚ sql_rows any_text table
             (criteria (proxy (Some {[ "1" := 2; "2" := 0; "3" := 1 ]}))) ∧
    Forall2 (λ row r,
               row_rank (Some "id") {[ "1" := 2; "2" := 0; "3" := 1 ]} row
               = Ok r) out rs ∧
    StronglySorted le rs.
Proof.
  split.
  - apply (proj1 (iter_rank_order any_text never never table (proxy None))).
    reflexivity.
  - apply (proj2 (iter_rank_order any_text never never table
                    (proxy (Some {[ "1" := 2; "2" := 0; "3" := 1 ]})))
                 {[ "1" := 2; "2" := 0; "3" := 1 ]}); [reflexivity|].
    repeat constructor; eexists; vm_compute; reflexivity.
Defined.

(** The rows come out by rank: article 2, then 3, then 1. *)
Example iter_ranked_run :
  __iter__ any_text never never table
           (proxy (Some {[ "1" := 2; "2" := 0; "3" := 1 ]}))
  = Ok [ article 2 "blue sky" "fox runs"; article 3 "green fox" "sleeps";
         article 1 "red fox" "jumps" ].
Proof. vm_compute. reflexivity. Qed.

(** C2, as stated, fails: article 2 is missing from the rank map, and the
    exception raised is a [KeyError], not a [RankingConsistencyError]. *)
Lemma iter_missing_rank_is_KeyError :
  __iter__ any_text never never table (proxy (Some {[ "1" := 0; "3" := 1 ]}))
  = Raise (KeyError (VUnicode "2")) ∧
  exc_name (KeyError (VUnicode "2")) ≠ "RankingConsistencyError".
Proof. split; [vm_compute; reflexivity|discriminate]. Qed.

Lemma iter_missing_rank_raises_witness :
  ∃ pre row post k,
    sql_rows any_text table (criteria (proxy (Some {[ "1" := 0; "3" := 1 ]})))
    = pre ++ row :: post ∧
    Forall (λ row, ∃ r, row_rank (Some "id") {[ "1" := 0; "3" := 1 ]} row
                        = Ok r) pre ∧
    key_of "id" row = Ok k ∧
    ({[ "1" := 0; "3" := 1 ]} : gmap string nat) !! k = None ∧
    __iter__ any_text never never table
             (proxy (Some {[ "1" := 0; "3" := 1 ]}))
    = Raise (KeyError (VUnicode k)).
Proof.
  apply (iter_missing_rank_raises any_text never never table
           (proxy (Some {[ "1" := 0; "3" := 1 ]}))
           {[ "1" := 0; "3" := 1 ]} "id"); [reflexivity|reflexivity| |].
  - repeat constructor; eexists; vm_compute; reflexivity.
  - apply Exists_cons_tl, Exists_cons_hd. exists "2".
    split; vm_compute; reflexivity.
Defined.

End IterExamples.

(** ** Text search on a query proxy *)

Module SearchFacts.


Section Search.
Context (text_holds : string → Instance → bool).
Context (engine_search :
  Index → list string → bool → PyValue → option nat → list Hit).
Context (row_eq row_lt : Instance → Instance → bool).

Lemma sql_rows_snoc table cs c :
  sql_rows text_holds table (cs ++ [c])
  = filter (λ row, holds text_holds c row = true)
           (sql_rows text_holds table cs).
Proof.
  unfold sql_rows. induction table as [|row table IH]; [done|].
  rewrite !filter_cons, IH, forallb_app. simpl. rewrite andb_true_r.
  destruct (forallb _ cs); simpl.
  - rewrite filter_cons. destruct (holds text_holds c row); simpl; done.
  - done.
Qed.

Lemma sql_rows_null table cs :
  sql_rows text_holds table (cs ++ [TextClause "null"]) = [].
Proof.
  rewrite sql_rows_snoc. induction (sql_rows text_holds table cs) as [|r l IH];
    [done|].
  rewrite filter_cons, decide_False; [done|].
  unfold holds. by rewrite bool_decide_eq_true_2.
Qed.

Lemma _Searcher_call_run self query limit fields or_ w ix :
  index_files (disk w) !! ix_dir (_index self) = Some ix →
  _Searcher_call engine_search self query limit fields or_ w
  = (Ok (engine_search ix (default (_all_fields self) fields) or_ query
                       limit), w).
Proof.
  intros Hix. unfold _Searcher_call, read_index, mbind, M_bind, mret, M_ret.
  by rewrite Hix.
Qed.


(** C5. A text search whose Searcher call returns no hit does not raise:
    it returns the query of the record type restricted by the literal
    predicate [null], and iterating that query yields no row, whatever
    the content of the relational store. *)
Theorem whoosh_search_no_hits self query limit fields or_ w q ix cattrs :
  coerce_query query = Ok q →
  index_files (disk w) !! ix_dir (_index (_whoosh_searcher self)) = Some ix →
  engine_search ix (default (_all_fields (_whoosh_searcher self)) fields)
                or_ q limit = [] →
  classes w !! cls_id (inst_class (_model self)) = Some cattrs →
  whoosh_search engine_search self query limit fields or_ w
  = (Ok (Query_filter (Model.query cattrs) (TextClause "null")), w) ∧
  ∀ table,
    iterate text_holds row_eq row_lt table
            (Query_filter (Model.query cattrs) (TextClause "null")) = Ok [].
Proof.
  intros Hq Hix Hhits Hcls. split.
  - unfold whoosh_search, lift. unfold mbind at 1. unfold M_bind at 1.
    rewrite Hq. unfold mbind at 1. unfold M_bind at 1.
    rewrite (_Searcher_call_run _ _ _ _ _ _ ix Hix), Hhits. simpl.
    unfold _EmptyQuery, class_query, class_attrs, mbind, M_bind, fmap, M_fmap.
    rewrite Hcls. reflexivity.
  - intros table. destruct (Model.query cattrs) as [cs|p]; simpl.
    + by rewrite sql_rows_null.
    + unfold __iter__. simpl. rewrite sql_rows_null.
      destruct (_whoosh_rank p); [|done]. simpl. by simp _inner.
Qed.

(** C10 (amended). A text search with any query value behaves as the
    search with the value's [unicode()] text; when [unicode()] raises (a
    byte string with a non-ASCII byte), the search raises that error and
    the Searcher is not called. *)
Theorem whoosh_search_coerces self query limit fields or_ w :
  whoosh_search engine_search self query limit fields or_ w
  = match unicode query with
    | Ok text =>
        whoosh_search engine_search self (VUnicode text) limit fields or_ w
    | Raise e => (Raise e, w)
    end.
Proof.
  unfold whoosh_search, lift. unfold mbind at 1 3. unfold M_bind at 1 3.
  unfold coerce_query.
  destruct query as [|[]|z|s|s]; simpl; try reflexivity.
  destruct (is_ascii s); reflexivity.
Qed.

End Search.
End SearchFacts.

Module SearchExamples.
Import Scenario SearchFacts.


Lemma whoosh_search_no_hits_witness :
  whoosh_search no_hits (proxy None) (VStr "unicorn") None None false indexed
  = (Ok (Query_filter (ProxyQuery (proxy None)) (TextClause "null")),
     indexed) ∧
  ∀ table,
    iterate any_text never never table
            (Query_filter (ProxyQuery (proxy None)) (TextClause "null"))
    = Ok [].
Proof.
  eapply (whoosh_search_no_hits any_text no_hits never never (proxy None)
            (VStr "unicorn") None None false indexed _ _
            {| query := ProxyQuery (proxy None);
               pure_whoosh := Some article_searcher |}).
  - reflexivity.
  - vm_compute. reflexivity.
  - reflexivity.
  - vm_compute. reflexivity.
Defined.

(** C10, as stated, fails: a byte string with a non-ASCII byte is not
    coerced and never reaches the Searcher; [unicode()] raises. *)
Lemma whoosh_search_non_ascii_raises :
  whoosh_search latest_first (proxy None) (VStr "café") None None false
                indexed
  = (Raise (UnicodeDecodeError "café"), indexed).
Proof. reflexivity. Qed.

End SearchExamples.

(** ** The schema derived from a record type *)

Module SchemaFacts.

Lemma schema_loop_cons model searchable c columns schema primary :
  get_searchable model = Ok searchable →
  schema_loop model (c :: columns) schema primary
  = schema_loop model columns (schema_step searchable c schema)
                (if col_primary_key c then Some (col_name c) else primary).
Proof.
  intros Hs. simpl. rewrite Hs. unfold schema_step.
  by destruct (col_primary_key c).
Qed.

Lemma schema_step_lookup searchable c schema :
  schema_step searchable c schema !! col_name c
  = match field_kind searchable c with
    | Some kind => Some kind
    | None => schema !! col_name c
    end.
Proof.
  unfold schema_step, field_kind.
  destruct (bool_decide (col_name c ∈ searchable)), (is_textual (col_type c)),
    (col_primary_key c); simpl;
    rewrite ?lookup_insert_eq; done.
Qed.

Lemma schema_step_lookup_ne searchable c schema name :
  name ≠ col_name c → schema_step searchable c schema !! name = schema !! name.
Proof.
  intros Hne. unfold schema_step.
  destruct (bool_decide (col_name c ∈ searchable)), (is_textual (col_type c)),
    (col_primary_key c); simpl;
    rewrite ?lookup_insert_ne by done; done.
Qed.

Lemma schema_loop_lookup model searchable columns schema primary :
  get_searchable model = Ok searchable →
  NoDup (col_name <$> columns) →
  ∃ schema' primary',
    schema_loop model columns schema primary = Ok (schema', primary') ∧
    (∀ c, c ∈ columns →
          schema' !! col_name c
          = match field_kind searchable c with
            | Some kind => Some kind
            | None => schema !! col_name c
            end) ∧
    (∀ name, name ∉ col_name <$> columns → schema' !! name = schema !! name).
Proof.
  intros Hs. revert schema primary.
  induction columns as [|c0 columns IH]; intros schema primary Hnd.
  { exists schema, primary. split_and!; [done| |done].
    intros c Hc. by apply elem_of_nil in Hc. }
  apply NoDup_cons in Hnd as [Hc0 Hnd].
  rewrite (schema_loop_cons _ _ _ _ _ _ Hs).
  destruct (IH (schema_step searchable c0 schema)
               (if col_primary_key c0 then Some (col_name c0) else primary)
               Hnd)
    as (schema' & primary' & Hrun & Hin & Hout).
  exists schema', primary'. split_and!; [done| |].
  - intros c [->|Hc]%elem_of_cons.
    + rewrite Hout by done. apply schema_step_lookup.
    + rewrite (Hin c Hc). destruct (field_kind searchable c); [done|].
      apply schema_step_lookup_ne. intros Heq. apply Hc0. rewrite <-Heq.
      by apply list_elem_of_fmap_2.
  - intros name [Hne Hni]%not_elem_of_cons. rewrite Hout by done.
    by apply schema_step_lookup_ne.
Qed.

(** X5. What the schema deriver does for a record type whose columns have
    distinct names: a searchable textual column is an analyzed-text
    field (also when it is the primary key); another primary-key column
    is an identifier field; every other column is omitted. *)
Lemma schema_of_columns model searchable :
  get_searchable model = Ok searchable →
  NoDup (col_name <$> cls_columns (inst_class model)) →
  ∃ schema primary,
    _get_whoosh_schema_and_primary model = Ok (schema, primary) ∧
    (∀ c, c ∈ cls_columns (inst_class model) →
          schema !! col_name c = field_kind searchable c) ∧
    (∀ name, name ∉ col_name <$> cls_columns (inst_class model) →
             schema !! name = None).
Proof.
  intros Hs Hnd.
  destruct (schema_loop_lookup model searchable _ ∅ None Hs Hnd)
    as (schema & primary & Hrun & Hin & Hout).
  exists schema, primary. split_and!; [done| |].
  - intros c Hc. rewrite (Hin c Hc). by destruct (field_kind searchable c).
  - intros name Hn. by rewrite Hout.
Qed.

End SchemaFacts.

Module SchemaExamples.
Import Scenario SchemaFacts.

(** C6, at the record type [Tag] whose primary key [slug] is a
    searchable string column: the derived schema holds [slug] as an
    analyzed-text field, not as an identifier field. *)
Theorem schema_searchable_text_primary_key :
  ∃ schema,
    _get_whoosh_schema_and_primary (tag "rocq" "Rocq")
    = Ok (schema, Some "slug") ∧
    schema !! "slug" = Some TEXT_stemming ∧
    schema !! "slug" ≠ Some ID_stored_unique.
Proof. eexists. split_and!; [vm_compute; reflexivity|done|done]. Qed.

(** The schema of [Article]: an identifier field and two text fields. *)
Example schema_article :
  ∃ schema,
    _get_whoosh_schema_and_primary (article 1 "red fox" "jumps")
    = Ok (schema, Some "id") ∧
    map_to_list schema
    = [("id", ID_stored_unique); ("body", TEXT_stemming);
       ("title", TEXT_stemming)].
Proof. eexists. split; vm_compute; reflexivity. Qed.

End SchemaExamples.

(** ** The index registry *)

Module RegistryFacts.

(** A cached handle is returned as it is; nothing changes. *)
Lemma whoosh_index_cached model w ixs indx :
  whoosh_indexes (app w) = Some ixs →
  ixs !! cls_name (inst_class model) = Some indx →
  _whoosh_index model w = (Ok indx, w).
Proof.
  intros Hixs Hname. destruct w as [[o cfg] dsk cls]. simpl in *. subst o.
  unfold _whoosh_index, mbind, M_bind, get_world, put_world, mret, M_ret.
  simpl. by rewrite Hname.
Qed.

Lemma whoosh_index_first_call model w schema primary cattrs :
  default ∅ (whoosh_indexes (app w)) !! cls_name (inst_class model) = None →
  _get_whoosh_schema_and_primary model = Ok (schema, primary) →
  classes w !! cls_id (inst_class model) = Some cattrs →
  ∃ w' ix,
    let indx := {| ix_dir := index_dir w model |} in
    let searcher :=
      {| primary_key_name := primary;
         _index := indx;
         _all_fields := elements (dom (ix_schema ix) ∖
                                  match primary with
                                  | Some p => {[p]}
                                  | None => ∅
                                  end) |} in
    _whoosh_index model w = (Ok indx, w') ∧
    whoosh_indexes (app w')
    = Some (<[cls_name (inst_class model) := indx]>
              (default ∅ (whoosh_indexes (app w)))) ∧
    ix = default {| ix_schema := schema; ix_docs := [] |}
                 (index_files (disk w) !! index_dir w model) ∧
    index_files (disk w')
    = <[index_dir w model := ix]> (index_files (disk w)) ∧
    classes w'
    = <[cls_id (inst_class model) :=
          {| query := ProxyQuery (_QueryProxy_init (query cattrs) primary
                                                    searcher model);
             pure_whoosh := Some searcher |}]> (classes w).
Proof.
  intros Hnone Hschema Hcls. destruct w as [[o cfg] dsk cls].
  unfold index_dir, whoosh_base. simpl in *.
  assert (default ∅ (Some (default ∅ o)) !! cls_name (inst_class model)
          = None) as Hnone' by done.
  destruct o as [ixs|]; simpl in Hnone;
    (destruct (cfg !! "WHOOSH_BASE") as [base|] eqn:Hbase;
       [destruct (bool_decide (base = "")) eqn:Hempty|]);
    match goal with
    | |- context [index_files dsk !! ?wi] =>
        destruct (index_files dsk !! wi) as [ix0|] eqn:Hix
    end;
    (eexists _, _; split;
     [ unfold _whoosh_index, mbind, M_bind, get_world, put_world, mret,
         M_ret, lift; simpl; rewrite ?Hnone, ?lookup_empty; simpl;
       rewrite ?Hbase, ?Hempty; simpl; rewrite Hschema; simpl;
       rewrite ?Hbase, ?lookup_insert_eq; simpl;
       unfold open_or_create, mbind, M_bind, get_world, put_world, mret,
         M_ret; simpl; rewrite ?Hix; simpl;
       unfold _Searcher_init, read_index, class_query, class_attrs, mbind,
         M_bind, mret, M_ret, fmap, M_fmap; simpl;
       rewrite ?Hix, ?lookup_insert_eq; simpl; rewrite Hcls; reflexivity
     | simpl; split_and!; try reflexivity ]).
  all: by rewrite insert_id.
Qed.

(** C9. The registry holds one handle per record-type name. The first
    call for a name derives the schema, opens the index in the directory
    of the type under the base path, or creates it empty with the derived
    schema when there is none, caches the handle under the name, and
    installs on the record type the query proxy and the Searcher; every
    later call for the name returns the cached handle and changes
    nothing. *)
Theorem registry_get_or_create model w schema primary cattrs :
  default ∅ (whoosh_indexes (app w)) !! cls_name (inst_class model) = None →
  _get_whoosh_schema_and_primary model = Ok (schema, primary) →
  classes w !! cls_id (inst_class model) = Some cattrs →
  ∃ w' ix,
    let indx := {| ix_dir := index_dir w model |} in
    let searcher :=
      {| primary_key_name := primary;
         _index := indx;
         _all_fields := elements (dom (ix_schema ix) ∖
                                  match primary with
                                  | Some p => {[p]}
                                  | None => ∅
                                  end) |} in
    _whoosh_index model w = (Ok indx, w') ∧
    whoosh_indexes (app w')
    = Some (<[cls_name (inst_class model) := indx]>
              (default ∅ (whoosh_indexes (app w)))) ∧
    ix = default {| ix_schema := schema; ix_docs := [] |}
                 (index_files (disk w) !! index_dir w model) ∧
    index_files (disk w')
    = <[index_dir w model := ix]> (index_files (disk w)) ∧
    classes w'
    = <[cls_id (inst_class model) :=
          {| query := ProxyQuery (_QueryProxy_init (query cattrs) primary
                                                    searcher model);
             pure_whoosh := Some searcher |}]> (classes w) ∧
    ∀ model',
      cls_name (inst_class model') = cls_name (inst_class model) →
      _whoosh_index model' w' = (Ok indx, w').
Proof.
  intros Hnone Hschema Hcls.
  destruct (whoosh_index_first_call model w schema primary cattrs)
    as (w' & ix & Hrun & Hixs & Hix & Hfiles & Hclasses); [done..|].
  exists w', ix. simpl in *. split_and!; [done..|].
  intros model' Hname. eapply whoosh_index_cached; [done|].
  rewrite Hname. apply lookup_insert_eq.
Qed.


End RegistryFacts.

Module RegistryExamples.
Import Scenario RegistryFacts.

Lemma registry_get_or_create_witness :
  ∃ w' ix,
    let model := article 1 "red fox" "jumps" in
    let indx := {| ix_dir := index_dir fresh model |} in
    let searcher :=
      {| primary_key_name := Some "id";
         _index := indx;
         _all_fields := elements (dom (ix_schema ix) ∖ {["id"]}) |} in
    _whoosh_index model fresh = (Ok indx, w') ∧
    whoosh_indexes (app w')
    = Some (<["Article" := indx]> (default ∅ (whoosh_indexes (app fresh)))) ∧
    ix = default {| ix_schema := {[ "id" := ID_stored_unique;
                                    "title" := TEXT_stemming;
                                    "body" := TEXT_stemming ]};
                    ix_docs := [] |}
                 (index_files (disk fresh) !! index_dir fresh model) ∧
    index_files (disk w')
    = <[index_dir fresh model := ix]> (index_files (disk fresh)) ∧
    classes w'
    = <["app.models.Article" :=
          {| query := ProxyQuery (_QueryProxy_init (PlainQuery [])
                                    (Some "id") searcher model);
             pure_whoosh := Some searcher |}]> (classes fresh) ∧
    ∀ model',
      cls_name (inst_class model') = "Article" →
      _whoosh_index model' w' = (Ok indx, w').
Proof.
  apply (registry_get_or_create (article 1 "red fox" "jumps") fresh
           {[ "id" := ID_stored_unique; "title" := TEXT_stemming;
              "body" := TEXT_stemming ]}
           (Some "id") {| query := PlainQuery []; pure_whoosh := None |}).
  - reflexivity.
  - vm_compute. reflexivity.
  - reflexivity.
Defined.

(** The index of [Article] lives in [whoosh_index/Article]. *)
Example index_dir_article :
  index_dir fresh (article 1 "red fox" "jumps") = "whoosh_index/Article".
Proof. reflexivity. Qed.

End RegistryExamples.

(** ** The commit hook: change collector and index writer *)

Module FlushFacts.

(** *** The change collector *)




(** *** The index writer *)

Lemma build_attrs_missing model v ks key ks' attrs :
  Forall (λ k, ∃ text, getattr v k ≫= unicode = Ok text) ks →
  inst_attrs v !! key = None →
  build_attrs model v (ks ++ key :: ks') attrs
  = Raise (AttributeError
             (model +:+ " does not have __searchable__ field " +:+ key)).
Proof.
  intros Hks Hkey. revert attrs.
  induction Hks as [|k ks [text Hk] _ IH]; intros attrs; simpl.
  - unfold getattr. by rewrite Hkey.
  - destruct (getattr v k) as [x|]; [|done]. simpl in Hk. rewrite Hk. simpl.
    apply IH.
Qed.

Lemma write_values_app model pf searchable pre post writer :
  write_values model pf searchable (pre ++ post) writer
  = write_values model pf searchable pre writer
      ≫= write_values model pf searchable post.
Proof.
  revert writer. induction pre as [|[update v] pre IH]; intros writer; [done|].
  simpl. destruct (write_value _ _ _ _ _ _); simpl; [apply IH|done].
Qed.

Lemma for_each_raise {A : Type} (body : A → M unit) before x after w w1 e w2 :
  for_each body before w = (Ok (), w1) →
  body x w1 = (Raise e, w2) →
  for_each body (before ++ x :: after) w = (Raise e, w2).
Proof.
  revert w. induction before as [|y before IH]; intros w; simpl.
  - intros [= <-] Hx. unfold mbind, M_bind. by rewrite Hx.
  - unfold mbind, M_bind. destruct (body y w) as [[[]|e'] w'] eqn:Hy; [|done].
    intros Hrest Hx. by apply IH.
Qed.

(** The writer of a batch holds the committed documents of the index. *)
Lemma open_batch_writer values w index writer pf searchable w' :
  open_batch values w = (Ok (index, writer, pf, searchable), w') →
  ∃ ix, index_files (disk w') !! ix_dir index = Some ix ∧
        w_schema writer = ix_schema ix ∧ w_docs writer = ix_docs ix.
Proof.
  unfold open_batch, lift, index_writer, read_index, class_pure_whoosh,
    class_attrs, mbind, M_bind, mret, M_ret.
  destruct (snd <$> list_getitem values 0) as [first|]; [|done].
  destruct (_whoosh_index first w) as [[indx|] w1]; [|done].
  destruct (index_files (disk w1) !! ix_dir indx) as [ix|] eqn:Hix; [|done].
  destruct (classes w1 !! cls_id (inst_class first)) as [a|]; [|done].
  destruct (pure_whoosh a); [|done].
  destruct (get_searchable first); [|done].
  intros [= <- <- <- <- <-]. by exists ix.
Qed.

(** C3 (amended). When, in the batch of a record type, an upserted
    record lacks an attribute of the searchable list, the commit hook
    raises [AttributeError] with the message "<type> does not have
    __searchable__ field <attribute>" to its caller; the batch is not
    committed: the state is the one in which the batch was opened, and
    the index holds the documents it held then. *)
Theorem after_flush_missing_searchable_field
    changes w before model values after w1 index writer pf searchable w2
    pre v post writer' ks key ks' :
  map_to_list (collect changes) = before ++ (model, values) :: after →
  for_each (λ '(model, values), index_batch model values) before w
  = (Ok (), w1) →
  open_batch values w1 = (Ok (index, writer, pf, searchable), w2) →
  values = pre ++ (true, v) :: post →
  write_values model pf searchable pre writer = Ok writer' →
  searchable = ks ++ key :: ks' →
  Forall (λ k, ∃ text, getattr v k ≫= unicode = Ok text) ks →
  inst_attrs v !! key = None →
  _after_flush changes w
  = (Raise (AttributeError
              (model +:+ " does not have __searchable__ field " +:+ key)),
     w2) ∧
  ∃ ix, index_files (disk w2) !! ix_dir index = Some ix ∧
        ix_docs ix = w_docs writer.
Proof.
  intros Hbatches Hbefore Hopen -> Hpre -> Hks Hkey. split.
  - unfold _after_flush. rewrite Hbatches.
    eapply for_each_raise; [done|].
    unfold index_batch, mbind at 1, M_bind at 1. rewrite Hopen.
    unfold lift, mbind at 1, M_bind at 1.
    rewrite write_values_app, Hpre. simpl.
    by rewrite (build_attrs_missing model v ks key ks' ∅ Hks Hkey).
  - destruct (open_batch_writer _ _ _ _ _ _ _ Hopen) as (ix & Hix & _ & Hdocs).
    by exists ix.
Qed.

(** *** The schema of a writer *)

Lemma write_value_schema model pf searchable writer update v writer' :
  write_value model pf searchable writer update v = Ok writer' →
  w_schema writer' = w_schema writer.
Proof.
  unfold write_value. destruct update.
  - destruct (build_attrs _ _ _ _); [|done]. simpl.
    destruct pf as [pf|]; [|done].
    destruct (getattr v pf ≫= unicode); [|done]. simpl. by intros [= <-].
  - destruct pf as [pf|]; [|done].
    destruct (getattr v pf ≫= unicode); [|done]. simpl. by intros [= <-].
Qed.

Lemma write_values_schema model pf searchable values writer writer' :
  write_values model pf searchable values writer = Ok writer' →
  w_schema writer' = w_schema writer.
Proof.
  revert writer. induction values as [|[update v] values IH]; intros writer.
  { by intros [= <-]. }
  simpl. destruct (write_value _ _ _ _ _ _) as [writer1|] eqn:Hv; [|done].
  simpl. intros ->%IH. by eapply write_value_schema.
Qed.

End FlushFacts.

Module FlushExamples.
Import Scenario FlushFacts.

(** C3, as stated, fails: [draft] lacks the searchable attribute [body],
    and the exception that reaches the caller of the commit hook is an
    [AttributeError], not a [MissingSearchableField]. *)
Lemma after_flush_missing_field_is_AttributeError :
  (_after_flush commit_with_draft fresh).1
  = Raise (AttributeError "Article does not have __searchable__ field body") ∧
  exc_name (AttributeError "Article does not have __searchable__ field body")
  ≠ "MissingSearchableField".
Proof. split; [vm_compute; reflexivity|discriminate]. Qed.

Lemma after_flush_missing_searchable_field_witness :
  _after_flush commit_with_draft fresh
  = (Raise (AttributeError
              ("Article" +:+ " does not have __searchable__ field "
                         +:+ "body")),
     (open_batch [(true, article 1 "red fox" "jumps"); (true, draft)]
                 fresh).2) ∧
  ∃ ix,
    index_files
      (disk (open_batch [(true, article 1 "red fox" "jumps"); (true, draft)]
                        fresh).2)
      !! "whoosh_index/Article" = Some ix ∧
    ix_docs ix = [].
Proof.
  apply (after_flush_missing_searchable_field
           commit_with_draft fresh [] "Article"
           [(true, article 1 "red fox" "jumps"); (true, draft)] [] fresh
           {| ix_dir := "whoosh_index/Article" |}
           {| w_schema := article_schema; w_docs := [] |}
           (Some "id") ["title"; "body"]
           (open_batch [(true, article 1 "red fox" "jumps"); (true, draft)]
                       fresh).2
           [(true, article 1 "red fox" "jumps")] draft []
           {| w_schema := article_schema;
              w_docs := [ {[ "id" := "1"; "title" := "red fox";
                             "body" := "jumps" ]} ] |}
           ["title"] "body" []).
  - vm_compute. reflexivity.
  - reflexivity.
  - vm_compute. reflexivity.
  - reflexivity.
  - vm_compute. reflexivity.
  - reflexivity.
  - repeat constructor. eexists. vm_compute. reflexivity.
  - vm_compute. reflexivity.
Defined.

(** C8, at the record type [Tag], whose primary key [slug] is a
    searchable string column (the defect of C6): a tag is committed and
    then, in a second commit, committed again with the same slug. Both
    commits return, and the stored index holds two documents with the
    key, the earlier one among them, not one. *)
Theorem upsert_twice_text_primary_key :
  let first := _after_flush [(tag "rocq" "Rocq", "insert")] fresh_tags in
  let second := _after_flush [(tag "rocq" "Rocq 9", "update")] first.2 in
  first.1 = Ok () ∧
  second.1 = Ok () ∧
  docs_with_key "slug" "rocq"
    <$> index_files (disk second.2) !! "whoosh_index/Tag"
  = Some [ {[ "slug" := "rocq"; "label" := "Rocq" ]};
           {[ "slug" := "rocq"; "label" := "Rocq 9" ]} ].
Proof. split_and!; vm_compute; reflexivity. Qed.

(** Two commits of a record type whose primary key is held as
    identifier: the article is inserted, then updated; the index holds
    the updated document only. *)
Example update_replaces_document :
  ix_docs <$>
    index_files
      (disk (_after_flush [(article 1 "green fox" "jumps", "update")]
               (_after_flush [(article 1 "red fox" "jumps", "insert")]
                             fresh).2).2)
      !! "whoosh_index/Article"
  = Some [ {[ "id" := "1"; "title" := "green fox"; "body" := "jumps" ]} ].
Proof. vm_compute. reflexivity. Qed.

(** A delete removes the document of the record. *)
Example delete_removes_document :
  ix_docs <$>
    index_files
      (disk (_after_flush [(article 2 "blue sky" "fox runs", "delete")]
                          indexed).2)
      !! "whoosh_index/Article"
  = Some [ {[ "id" := "1"; "title" := "red fox"; "body" := "jumps" ]};
           {[ "id" := "3"; "title" := "green fox"; "body" := "sleeps" ]} ].
Proof. vm_compute. reflexivity. Qed.

End FlushExamples.

(** ** Search, then iterate *)

Module PipelineFacts.
Import Heapq HeapqFacts IterFacts SearchFacts.



Section Pipeline.
Context (text_holds : string → Instance → bool).
Context (engine_search :
  Index → list string → bool → PyValue → option nat → list Hit).

(** Iteration with a rank map that covers the rows. *)
Lemma iter_sorted_run row_eq row_lt table self ranks :
  _whoosh_rank self = Some ranks →
  Forall (λ row, ∃ r, row_rank (_primary_key_name self) ranks row = Ok r)
         (sql_rows text_holds table (criteria self)) →
  ∃ out rs,
    __iter__ text_holds row_eq row_lt table self = Ok out ∧
    out ≡ₚ sql_rows text_holds table (criteria self) ∧
    Forall2 (λ row r, row_rank (_primary_key_name self) ranks row = Ok r)
            out rs ∧
    StronglySorted le rs.
Proof.
  unfold __iter__. intros -> Hall.
  destruct (push_rows_spec row_eq row_lt (_primary_key_name self) ranks
              (sql_rows text_holds table (criteria self)) [])
    as (heap & -> & Hinv & Hrk & Hperm); [|done|done|].
  { intros i _ x p Hx. by rewrite lookup_nil in Hx. }
  simpl.
  destruct (_inner_spec row_eq row_lt heap Hinv)
    as (items & -> & Hperm' & Hsorted).
  exists (items.*2), (items.*1). split_and!; [done| | |].
  - rewrite Hperm', Hperm. simpl. by rewrite app_nil_r.
  - apply ranked_Forall2. by rewrite Hperm'.
  - by apply sorted_ranks.
Qed.

Lemma sorted_by_rank pk ranks (out : list Instance) rs :
  Forall2 (λ row r, row_rank pk ranks row = Ok r) out rs →
  StronglySorted le rs →
  StronglySorted (λ a b, ∃ ra rb, row_rank pk ranks a = Ok ra ∧
                                  row_rank pk ranks b = Ok rb ∧ ra ≤ rb) out.
Proof.
  induction 1 as [|row r out rs Hr Hall IH]; intros Hs; [constructor|].
  apply StronglySorted_inv in Hs as [Hs Hle]. constructor; [by apply IH|].
  clear IH Hs. induction Hall as [|row' r' out rs Hr' _ IH]; [constructor|].
  apply Forall_cons in Hle as [Hle Hles]. constructor; [|by apply IH].
  by exists r, r'.
Qed.

(** X1. The order in which the relational store returns the rows does
    not matter, nor does Python's comparison of two records: when the rows
    have pairwise distinct ranks, iterating over any rearrangement of the
    store, under any comparison of records, yields the same sequence. *)
Theorem iter_independent_of_store_order
    row_eq row_lt row_eq' row_lt' table table' self ranks :
  _whoosh_rank self = Some ranks →
  table ≡ₚ table' →
  Forall (λ row, ∃ r, row_rank (_primary_key_name self) ranks row = Ok r)
         (sql_rows text_holds table (criteria self)) →
  (∀ row1 row2 r,
     row1 ∈ sql_rows text_holds table (criteria self) →
     row2 ∈ sql_rows text_holds table (criteria self) →
     row_rank (_primary_key_name self) ranks row1 = Ok r →
     row_rank (_primary_key_name self) ranks row2 = Ok r →
     row1 = row2) →
  __iter__ text_holds row_eq row_lt table self
  = __iter__ text_holds row_eq' row_lt' table' self.
Proof.
  intros Hranks Hperm Hall Hinj.
  assert (sql_rows text_holds table (criteria self)
          ≡ₚ sql_rows text_holds table' (criteria self)) as Hrows.
  { unfold sql_rows. by rewrite Hperm. }
  destruct (iter_sorted_run row_eq row_lt table self ranks Hranks Hall)
    as (out & rs & -> & Hout & Hrk & Hsorted).
  destruct (iter_sorted_run row_eq' row_lt' table' self ranks Hranks)
    as (out' & rs' & -> & Hout' & Hrk' & Hsorted'); [by rewrite <-Hrows|].
  f_equal.
  eapply StronglySorted_unique_strong;
    [|by eapply sorted_by_rank..|by rewrite Hout, Hout'].
  intros x1 x2 Hx1 Hx2 (r1 & r2 & Hr1 & Hr2 & Hle) (r2' & r1' & Hr2' & Hr1' & Hge).
  rewrite Hout in Hx1. rewrite Hout', <-Hrows in Hx2.
  rewrite Hr1 in Hr1'. injection Hr1' as <-.
  rewrite Hr2 in Hr2'. injection Hr2' as <-.
  assert (r1 = r2) as -> by lia.
  by eapply Hinj.
Qed.


Lemma rank_loop_missing pk (pre : list Hit) h post n seen ranks :
  Forall (λ h, is_Some (h !! pk)) pre → h !! pk = None →
  rank_loop (Some pk) (pre ++ h :: post) n seen ranks
  = Raise (KeyError (VUnicode pk)).
Proof.
  intros Hpre Hh. revert n seen ranks.
  induction Hpre as [|h0 pre [k Hk] _ IH]; intros n seen ranks; simpl.
  - unfold dict_getitem. by rewrite Hh.
  - unfold dict_getitem. rewrite Hk. simpl. apply IH.
Qed.

(** X3. When a hit does not expose the primary-key field (the field is
    not stored in the index), the text search raises [KeyError] with the
    name of the primary key, and changes nothing. *)
Theorem whoosh_search_hit_without_key
    self query limit fields or_ w q ix pk pre h post :
  coerce_query query = Ok q →
  index_files (disk w) !! ix_dir (_index (_whoosh_searcher self)) = Some ix →
  engine_search ix (default (_all_fields (_whoosh_searcher self)) fields)
                or_ q limit = pre ++ h :: post →
  _primary_key_name self = Some pk →
  Forall (λ h, is_Some (h !! pk)) pre →
  h !! pk = None →
  whoosh_search engine_search self query limit fields or_ w
  = (Raise (KeyError (VUnicode pk)), w).
Proof.
  intros Hq Hix Hhits Hpk Hpre Hh.
  unfold whoosh_search, lift. unfold mbind at 1. unfold M_bind at 1.
  rewrite Hq. unfold mbind at 1. unfold M_bind at 1.
  rewrite (_Searcher_call_run engine_search _ _ _ _ _ _ ix Hix), Hhits.
  rewrite bool_decide_eq_false_2 by (rewrite length_app; simpl; lia).
  unfold mbind, M_bind. rewrite Hpk.
  by rewrite (rank_loop_missing pk pre h post 0 ∅ ∅ Hpre Hh).
Qed.

(** X4. A text search reads the process state and never changes it:
    whatever it returns or raises, the registry, the configuration, the
    disk and the attributes of the record types are as before. *)
Theorem whoosh_search_keeps_world self query limit fields or_ w :
  (whoosh_search engine_search self query limit fields or_ w).2 = w.
Proof.
  unfold whoosh_search, lift, _Searcher_call, read_index, _EmptyQuery,
    class_query, class_attrs, mbind, M_bind, fmap, M_fmap, mret, M_ret.
  repeat case_match; simplify_eq/=; done.
Qed.

End Pipeline.
End PipelineFacts.

Module PipelineExamples.
Import Scenario PipelineFacts.

Lemma iter_independent_of_store_order_witness :
  __iter__ any_text never never table
           (proxy (Some {[ "1" := 2; "2" := 0; "3" := 1 ]}))
  = __iter__ any_text by_title by_title (reverse table)
             (proxy (Some {[ "1" := 2; "2" := 0; "3" := 1 ]})).
Proof.
  apply (iter_independent_of_store_order any_text never never by_title
           by_title table (reverse table)
           (proxy (Some {[ "1" := 2; "2" := 0; "3" := 1 ]}))
           {[ "1" := 2; "2" := 0; "3" := 1 ]}).
  - reflexivity.
  - symmetry. apply reverse_Permutation.
  - repeat constructor; eexists; vm_compute; reflexivity.
  - intros row1 row2 r Hrow1 Hrow2.
    vm_compute in Hrow1, Hrow2.
    repeat (apply elem_of_cons in Hrow1 as [->|Hrow1]);
      [| | |by apply elem_of_nil in Hrow1];
      (repeat (apply elem_of_cons in Hrow2 as [->|Hrow2]);
        [| | |by apply elem_of_nil in Hrow2]);
      vm_compute; congruence.
Defined.


Lemma whoosh_search_hit_without_key_witness :
  whoosh_search titles_only (proxy None) (VStr "fox") None None false indexed
  = (Raise (KeyError (VUnicode "id")), indexed).
Proof.
  eapply (whoosh_search_hit_without_key titles_only (proxy None) (VStr "fox")
            None None false indexed _ _ "id" []).
  - reflexivity.
  - vm_compute. reflexivity.
  - vm_compute. reflexivity.
  - reflexivity.
  - constructor.
  - vm_compute. reflexivity.
Defined.

End PipelineExamples.

(** ** More on the schema deriver *)

Module SchemaMoreFacts.
Import SchemaFacts.

Lemma last_cons_default {A : Type} (x : A) l :
  last (x :: l) = Some (default x (last l)).
Proof.
  revert x. induction l as [|y l IH]; intros x; [done|].
  change (last (x :: y :: l)) with (last (y :: l)). by rewrite !IH.
Qed.

Lemma schema_loop_primary model searchable columns schema primary :
  get_searchable model = Ok searchable →
  ∃ schema',
    schema_loop model columns schema primary
    = Ok (schema',
          match last (col_name <$>
                        filter (λ c, col_primary_key c = true) columns) with
          | Some name => Some name
          | None => primary
          end).
Proof.
  intros Hs. revert schema primary.
  induction columns as [|c columns IH]; intros schema primary.
  { by exists schema. }
  rewrite (schema_loop_cons _ _ _ _ _ _ Hs).
  destruct (IH (schema_step searchable c schema)
               (if col_primary_key c then Some (col_name c) else primary))
    as (schema' & ->).
  exists schema'. f_equal. f_equal. rewrite filter_cons.
  destruct (col_primary_key c) eqn:Hc.
  - rewrite decide_True by done. rewrite fmap_cons, last_cons_default.
    by destruct (last _).
  - by rewrite decide_False by done.
Qed.

(** X6. The primary-key name the schema deriver returns is the name of
    the last primary-key column of the table (of a composite key, the last
    column only), and [None] when the table has no primary-key column. *)
Theorem schema_primary_is_last_key_column model searchable :
  get_searchable model = Ok searchable →
  ∃ schema,
    _get_whoosh_schema_and_primary model
    = Ok (schema,
          last (col_name <$> filter (λ c, col_primary_key c = true)
                                    (cls_columns (inst_class model)))).
Proof.
  intros Hs.
  destruct (schema_loop_primary model searchable
              (cls_columns (inst_class model)) ∅ None Hs) as (schema & Hrun).
  exists schema. unfold _get_whoosh_schema_and_primary. rewrite Hrun.
  by destruct (last _).
Qed.

End SchemaMoreFacts.

Module SchemaMoreExamples.
Import Scenario SchemaFacts SchemaMoreFacts.

Lemma schema_of_columns_witness :
  ∃ schema primary,
    _get_whoosh_schema_and_primary (line 7 1 3 "fragile")
    = Ok (schema, primary) ∧
    (∀ c, c ∈ cls_columns Line →
          schema !! col_name c = field_kind ["note"; "quantity"] c) ∧
    (∀ name, name ∉ col_name <$> cls_columns Line → schema !! name = None).
Proof.
  apply (schema_of_columns (line 7 1 3 "fragile") ["note"; "quantity"]).
  - reflexivity.
  - vm_compute. repeat constructor; set_solver.
Defined.

(** The schema of [Line]: both key columns are identifier fields, [note]
    is a text field, and the searchable number [quantity] is left out. *)
Example schema_line :
  ∃ schema,
    _get_whoosh_schema_and_primary (line 7 1 3 "fragile")
    = Ok (schema, Some "position") ∧
    map_to_list schema
    = [("order_id", ID_stored_unique); ("note", TEXT_stemming);
       ("position", ID_stored_unique)].
Proof. eexists. split; vm_compute; reflexivity. Qed.

Lemma schema_primary_is_last_key_column_witness :
  ∃ schema,
    _get_whoosh_schema_and_primary (line 7 1 3 "fragile")
    = Ok (schema,
          last (col_name <$> filter (λ c, col_primary_key c = true)
                                    (cls_columns Line))).
Proof.
  apply (schema_primary_is_last_key_column (line 7 1 3 "fragile")
           ["note"; "quantity"]).
  reflexivity.
Defined.

End SchemaMoreExamples.

(** ** What a call of [_whoosh_index] leaves alone *)

Module RegistryFrame.
Import SchemaFacts RegistryFacts.

(** Every way [_whoosh_index] can run, with the state it ends in. *)
Ltac whoosh_index_cases H :=
  unfold _whoosh_index, open_or_create, _Searcher_init, read_index,
    class_query, class_attrs, lift, mbind, M_bind, fmap, M_fmap,
    get_world, put_world, mret, M_ret in H;
  simpl in H;
  repeat (case_match; simpl in *; simplify_eq/=).

Lemma whoosh_index_frame model w r w' :
  _whoosh_index model w = (r, w') →
  (∀ name indx,
     default ∅ (whoosh_indexes (app w)) !! name = Some indx →
     default ∅ (whoosh_indexes (app w')) !! name = Some indx) ∧
  (∀ d ix, index_files (disk w) !! d = Some ix →
           index_files (disk w') !! d = Some ix) ∧
  (∀ key, key ≠ "WHOOSH_BASE" →
          config (app w') !! key = config (app w) !! key) ∧
  (∀ cid, cid ≠ cls_id (inst_class model) →
          classes w' !! cid = classes w !! cid) ∧
  (default ∅ (whoosh_indexes (app w)) !! cls_name (inst_class model) = None →
   config (app w') !! "WHOOSH_BASE" = Some (whoosh_base w)) ∧
  (∀ indx d, r = Ok indx → d ≠ ix_dir indx →
             index_files (disk w') !! d = index_files (disk w) !! d) ∧
  (∀ indx, r = Ok indx →
           default ∅ (whoosh_indexes (app w')) !! cls_name (inst_class model)
           = Some indx).
Proof.
  intros Hrun. destruct w as [[o cfg] dsk cls].
  unfold whoosh_base. simpl.
  whoosh_index_cases Hrun.
  all: split_and!.
  all: try (intros name indx Hname;
            destruct (decide (name = cls_name (inst_class model))) as [->|];
            [congruence|by rewrite lookup_insert_ne]).
  all: try (intros d ix' Hd;
            match goal with
            | |- <[?wi := _]> _ !! _ = _ =>
                destruct (decide (d = wi)) as [->|];
                [|by rewrite lookup_insert_ne]
            end;
            match goal with
            | H : bool_decide (is_Some _) = false |- _ =>
                apply bool_decide_eq_false in H; exfalso; apply H; by eexists
            end).
  all: try (intros key Hkey; by rewrite ?lookup_insert_ne).
  all: try (intros indx d [= <-] Hd; simpl in *; by rewrite ?lookup_insert_ne).
  all: try (intros Hnone; rewrite ?lookup_insert_eq; congruence).
  all: try (intros indx [= <-]; simpl; by rewrite ?lookup_insert_eq).
  all: try done.
Qed.

End RegistryFrame.

(** ** More on the index registry *)

Module RegistryMoreFacts.
Import SchemaFacts RegistryFacts RegistryFrame.

(** X7. Whatever its outcome, a call of [_whoosh_index] drops and
    replaces nothing: a handle cached under a name stays cached under
    it, an index stored in a directory stays as it is, and the
    attributes of every other record type are left alone; when the call
    returns a handle, no directory but the handle's has changed. *)
Theorem whoosh_index_keeps model w r w' :
  _whoosh_index model w = (r, w') →
  (∀ name indx,
     default ∅ (whoosh_indexes (app w)) !! name = Some indx →
     default ∅ (whoosh_indexes (app w')) !! name = Some indx) ∧
  (∀ d ix, index_files (disk w) !! d = Some ix →
           index_files (disk w') !! d = Some ix) ∧
  (∀ indx d, r = Ok indx → d ≠ ix_dir indx →
             index_files (disk w') !! d = index_files (disk w) !! d) ∧
  (∀ cid, cid ≠ cls_id (inst_class model) →
          classes w' !! cid = classes w !! cid).
Proof.
  intros Hrun.
  destruct (whoosh_index_frame _ _ _ _ Hrun)
    as (Hreg & Hfiles & _ & Hcls & _ & Hdir & _).
  done.
Qed.

(** X8. A call of [_whoosh_index] for a name that is not cached leaves
    the base path it uses in the configuration, also when the call then
    raises: [WHOOSH_BASE] is the configured value when there is a
    non-empty one and ['whoosh_index'] otherwise, and no other key of
    the configuration changes. *)
Theorem whoosh_index_base_path model w r w' :
  _whoosh_index model w = (r, w') →
  default ∅ (whoosh_indexes (app w)) !! cls_name (inst_class model) = None →
  config (app w') !! "WHOOSH_BASE"
  = Some (match config (app w) !! "WHOOSH_BASE" with
          | Some "" | None => "whoosh_index"
          | Some base => base
          end) ∧
  ∀ key, key ≠ "WHOOSH_BASE" →
         config (app w') !! key = config (app w) !! key.
Proof.
  intros Hrun Hnone.
  destruct (whoosh_index_frame _ _ _ _ Hrun)
    as (_ & _ & Hcfg & _ & Hbase & _ & _).
  split; [|done]. rewrite (Hbase Hnone). unfold whoosh_base.
  destruct (config (app w) !! "WHOOSH_BASE") as [base|]; [|done].
  by destruct base.
Qed.

(** X9. The query proxy that the first call installs on a record type
    is transparent until a text search is run: it carries no ranks and
    the criteria of the query it replaces, and iterating it yields the
    rows those criteria select, in the order of the store. *)
Theorem installed_proxy_is_transparent
    (text_holds : string → Instance → bool)
    (row_eq row_lt : Instance → Instance → bool)
    model w schema primary cattrs table :
  default ∅ (whoosh_indexes (app w)) !! cls_name (inst_class model) = None →
  _get_whoosh_schema_and_primary model = Ok (schema, primary) →
  classes w !! cls_id (inst_class model) = Some cattrs →
  ∃ indx w' p,
    _whoosh_index model w = (Ok indx, w') ∧
    class_query (inst_class model) w' = (Ok (ProxyQuery p), w') ∧
    _whoosh_rank p = None ∧
    criteria p = query_criteria (query cattrs) ∧
    iterate text_holds row_eq row_lt table (ProxyQuery p)
    = Ok (sql_rows text_holds table (query_criteria (query cattrs))).
Proof.
  intros Hnone Hschema Hcls.
  destruct (whoosh_index_first_call model w schema primary cattrs)
    as (w' & ix & Hrun & _ & _ & _ & Hclasses); [done..|].
  simpl in Hrun, Hclasses.
  eexists _, w', _. split; [exact Hrun|].
  split.
  { unfold class_query, class_attrs, fmap, M_fmap.
    rewrite Hclasses, lookup_insert_eq. reflexivity. }
  done.
Qed.

(** X10. The fields a search covers by default. After the first call
    for a record type whose columns have distinct names and whose
    directory holds no index yet, the Searcher installed on the type
    searches, when no fields are given, the columns that the schema
    holds except the primary key: the searchable textual columns and the
    other primary-key columns, each once. *)
Theorem default_fields_of_new_index model w searchable schema p cattrs :
  default ∅ (whoosh_indexes (app w)) !! cls_name (inst_class model) = None →
  get_searchable model = Ok searchable →
  NoDup (col_name <$> cls_columns (inst_class model)) →
  _get_whoosh_schema_and_primary model = Ok (schema, Some p) →
  classes w !! cls_id (inst_class model) = Some cattrs →
  index_files (disk w) !! index_dir w model = None →
  ∃ indx w' searcher,
    _whoosh_index model w = (Ok indx, w') ∧
    class_pure_whoosh (inst_class model) w' = (Ok searcher, w') ∧
    primary_key_name searcher = Some p ∧
    NoDup (_all_fields searcher) ∧
    ∀ name,
      name ∈ _all_fields searcher ↔
      name ≠ p ∧
      ∃ c, c ∈ cls_columns (inst_class model) ∧ col_name c = name ∧
           ((name ∈ searchable ∧ is_textual (col_type c) = true) ∨
            col_primary_key c = true).
Proof.
  intros Hnone Hs Hnd Hschema Hcls Hfresh.
  destruct (whoosh_index_first_call model w schema (Some p) cattrs)
    as (w' & ix & Hrun & _ & Hix & _ & Hclasses); [done..|].
  simpl in Hrun, Hclasses. rewrite Hfresh in Hix. simpl in Hix. subst ix.
  simpl in Hclasses.
  destruct (schema_loop_lookup model searchable _ ∅ None Hs Hnd)
    as (schema' & primary' & Hrun' & Hin & Hout).
  unfold _get_whoosh_schema_and_primary in Hschema.
  rewrite Hschema in Hrun'. injection Hrun' as <- <-.
  eexists _, w', _. split; [exact Hrun|].
  split.
  { unfold class_pure_whoosh, class_attrs, mbind, M_bind.
    rewrite Hclasses, lookup_insert_eq. reflexivity. }
  simpl. split_and!; [done|apply NoDup_elements|].
  intros name. rewrite elem_of_elements, elem_of_difference, elem_of_dom,
    not_elem_of_singleton.
  split.
  - intros [[kind Hkind] Hne]. split; [done|].
    destruct (decide (name ∈ col_name <$> cls_columns (inst_class model)))
      as [Hname|Hname].
    + apply list_elem_of_fmap in Hname as (c & -> & Hc).
      exists c. split_and!; [done..|].
      rewrite (Hin c Hc) in Hkind. unfold field_kind in Hkind.
      destruct (bool_decide (col_name c ∈ searchable)) eqn:Hb;
        destruct (is_textual (col_type c)); simpl in Hkind;
        try (apply bool_decide_eq_true in Hb; by left);
        (destruct (col_primary_key c); [by right|done]).
    + by rewrite (Hout name Hname) in Hkind.
  - intros [Hne (c & Hc & <- & Hkind)]. split; [|done].
    rewrite (Hin c Hc). unfold field_kind.
    destruct Hkind as [[Hb ->]| ->].
    + rewrite bool_decide_true by done. by eexists.
    + destruct (_ && _); by eexists.
Qed.

End RegistryMoreFacts.

Module RegistryMoreExamples.
Import Scenario RegistryMoreFacts.

Lemma whoosh_index_keeps_witness :
  let model := tag "rocq" "Rocq" in
  let w' := (_whoosh_index model indexed).2 in
  (∀ name indx,
     default ∅ (whoosh_indexes (app indexed)) !! name = Some indx →
     default ∅ (whoosh_indexes (app w')) !! name = Some indx) ∧
  (∀ d ix, index_files (disk indexed) !! d = Some ix →
           index_files (disk w') !! d = Some ix) ∧
  (∀ indx d, (_whoosh_index model indexed).1 = Ok indx → d ≠ ix_dir indx →
             index_files (disk w') !! d = index_files (disk indexed) !! d) ∧
  (∀ cid, cid ≠ "app.models.Tag" →
          classes w' !! cid = classes indexed !! cid).
Proof.
  apply (whoosh_index_keeps (tag "rocq" "Rocq") indexed
           (_whoosh_index (tag "rocq" "Rocq") indexed).1
           (_whoosh_index (tag "rocq" "Rocq") indexed).2).
  reflexivity.
Defined.

(** The call for a record type without searchable attributes raises,
    and the base path is in the configuration all the same. *)
Lemma whoosh_index_base_path_witness :
  ∃ e w',
    _whoosh_index (plain 1) fresh = (Raise e, w') ∧
    config (app w') !! "WHOOSH_BASE" = Some "whoosh_index" ∧
    ∀ key, key ≠ "WHOOSH_BASE" →
           config (app w') !! key = config (app fresh) !! key.
Proof.
  eexists _, _. split; [vm_compute; reflexivity|].
  apply (whoosh_index_base_path (plain 1) fresh
           (_whoosh_index (plain 1) fresh).1
           (_whoosh_index (plain 1) fresh).2); reflexivity.
Defined.

Lemma installed_proxy_is_transparent_witness :
  ∃ indx w' p,
    _whoosh_index (article 1 "red fox" "jumps") fresh = (Ok indx, w') ∧
    class_query Article w' = (Ok (ProxyQuery p), w') ∧
    _whoosh_rank p = None ∧
    criteria p = [] ∧
    iterate any_text never never table (ProxyQuery p)
    = Ok (sql_rows any_text table []).
Proof.
  apply (installed_proxy_is_transparent any_text never never
           (article 1 "red fox" "jumps") fresh article_schema (Some "id")
           {| query := PlainQuery []; pure_whoosh := None |} table);
    vm_compute; reflexivity.
Defined.

Lemma default_fields_of_new_index_witness :
  ∃ indx w' searcher,
    let model := line 7 1 3 "fragile" in
    let w := set_classes {[ "app.models.Line" :=
                              {| query := PlainQuery [];
                                 pure_whoosh := None |} ]} fresh in
    _whoosh_index model w = (Ok indx, w') ∧
    class_pure_whoosh Line w' = (Ok searcher, w') ∧
    primary_key_name searcher = Some "position" ∧
    NoDup (_all_fields searcher) ∧
    ∀ name,
      name ∈ _all_fields searcher ↔
      name ≠ "position" ∧
      ∃ c, c ∈ cls_columns Line ∧ col_name c = name ∧
           ((name ∈ ["note"; "quantity"] ∧ is_textual (col_type c) = true) ∨
            col_primary_key c = true).
Proof.
  apply (default_fields_of_new_index (line 7 1 3 "fragile")
           (set_classes {[ "app.models.Line" :=
                             {| query := PlainQuery [];
                                pure_whoosh := None |} ]} fresh)
           ["note"; "quantity"]
           {[ "order_id" := ID_stored_unique; "position" := ID_stored_unique;
              "note" := TEXT_stemming ]}
           "position"
           {| query := PlainQuery []; pure_whoosh := None |});
    try (vm_compute; reflexivity).
  simpl. repeat constructor; set_solver.
Defined.

End RegistryMoreExamples.

(** ** More on the commit hook *)

Module FlushMoreFacts.
Import FlushFacts RegistryFacts RegistryFrame.

(** *** Changes of types that are not searchable *)

Lemma collect_filter bytype changes :
  foldl collect_step bytype changes
  = foldl collect_step bytype
      (filter (λ change, has_searchable change.1 = true) changes).
Proof.
  revert bytype. induction changes as [|change changes IH]; intros bytype.
  { done. }
  rewrite filter_cons. simpl. case_decide as Hs.
  - simpl. apply IH.
  - rewrite IH. f_equal. unfold collect_step.
    by destruct (has_searchable change.1).
Qed.

Lemma collect_unsearchable bytype changes :
  Forall (λ change, has_searchable change.1 = false) changes →
  foldl collect_step bytype changes = bytype.
Proof.
  intros Hall. revert bytype.
  induction Hall as [|change changes Hs _ IH]; intros bytype; [done|].
  simpl. rewrite IH. unfold collect_step. by rewrite Hs.
Qed.

(** X11. The commit hook looks only at the changes of record types that
    declare searchable attributes: the other changes of a commit can be
    left out without changing what the hook does, and on them alone the
    hook does nothing. *)
Theorem after_flush_skips_unsearchable changes w :
  _after_flush changes w
  = _after_flush (filter (λ change, has_searchable change.1 = true) changes) w
  ∧
  _after_flush (filter (λ change, has_searchable change.1 = false) changes) w
  = (Ok (), w).
Proof.
  unfold _after_flush, collect. split.
  - by rewrite collect_filter.
  - rewrite collect_unsearchable, map_to_list_empty; [done|].
    apply Forall_forall. by intros change [Hs _]%list_elem_of_filter.
Qed.

(** *** What the hook keeps *)

Lemma keeps_refl w : keeps w w.
Proof. split_and!; [done| |done]. intros d ix Hd. by exists ix. Qed.

Lemma keeps_trans w1 w2 w3 : keeps w1 w2 → keeps w2 w3 → keeps w1 w3.
Proof.
  intros (Hreg & Hfiles & Hcfg) (Hreg' & Hfiles' & Hcfg'). split_and!.
  - intros name indx Hn. by apply Hreg', Hreg.
  - intros d ix Hd.
    destruct (Hfiles d ix Hd) as (ix2 & Hd2 & Hs2).
    destruct (Hfiles' d ix2 Hd2) as (ix3 & Hd3 & Hs3).
    exists ix3. split; [done|]. congruence.
  - intros key Hkey. by rewrite Hcfg', Hcfg.
Qed.

Lemma whoosh_index_extends model w r w' :
  _whoosh_index model w = (r, w') → keeps w w'.
Proof.
  intros Hrun.
  destruct (whoosh_index_frame _ _ _ _ Hrun)
    as (Hreg & Hfiles & Hcfg & _).
  split_and!; [done| |done]. intros d ix Hd. exists ix. split; [|done].
  by apply Hfiles.
Qed.

(** Every way a batch can run: the steps up to the point where it
    stops, and the state it ends in. *)
Lemma index_batch_cases model values w r w' :
  index_batch model values w = (r, w') →
  (∃ e, r = Raise e ∧ w' = w) ∨
  (∃ update first r1 w1,
     values !! 0 = Some (update, first) ∧
     _whoosh_index first w = (r1, w1) ∧
     ((∃ e, r = Raise e ∧ w' = w1) ∨
      (∃ indx ix writer',
         r1 = Ok indx ∧ r = Ok () ∧
         index_files (disk w1) !! ix_dir indx = Some ix ∧
         w_schema writer' = ix_schema ix ∧
         index_files (disk w')
         = <[ix_dir indx := {| ix_schema := w_schema writer';
                               ix_docs := w_docs writer' |}]>
             (index_files (disk w1)) ∧
         app w' = app w1))).
Proof.
  unfold index_batch, open_batch, lift, index_writer, read_index,
    class_pure_whoosh, class_attrs, commit, list_getitem, mbind, M_bind,
    mret, M_ret.
  destruct (values !! 0) as [[update first]|] eqn:Hfirst; simpl;
    [|intros [= <- <-]; left; by eexists].
  destruct (_whoosh_index first w) as [r1 w1] eqn:Hrun.
  intros Hbatch. right. exists update, first, r1, w1.
  split_and!; [done..|].
  destruct r1 as [indx|e]; [|injection Hbatch as <- <-; left; by eexists].
  destruct (index_files (disk w1) !! ix_dir indx) as [ix|] eqn:Hix;
    [|injection Hbatch as <- <-; left; by eexists].
  destruct (classes w1 !! cls_id (inst_class first)) as [a|];
    [|injection Hbatch as <- <-; left; by eexists].
  destruct (pure_whoosh a); simpl in Hbatch;
    [|injection Hbatch as <- <-; left; by eexists].
  destruct (get_searchable first); simpl in Hbatch;
    [|injection Hbatch as <- <-; left; by eexists].
  destruct (write_values _ _ _ _ _) as [writer'|] eqn:Hwrite;
    simpl in Hbatch;
    [|injection Hbatch as <- <-; left; by eexists].
  injection Hbatch as <- <-. right. exists indx, ix, writer'.
  apply write_values_schema in Hwrite. simpl in Hwrite.
  split_and!; done.
Qed.

Lemma index_batch_extends model values w r w' :
  index_batch model values w = (r, w') → keeps w w'.
Proof.
  intros [(e & _ & ->)|(update & first & r1 & w1 & _ & Hrun & Hrest)]
    %index_batch_cases.
  { apply keeps_refl. }
  apply whoosh_index_extends in Hrun.
  destruct Hrest as [(e & _ & ->)|
                     (indx & ix & writer' & _ & _ & Hix & Hs & Hfiles & Happ)];
    [done|].
  eapply keeps_trans; [exact Hrun|].
  unfold keeps. rewrite Happ, Hfiles. split_and!; [done| |done].
  intros d ix1 Hd. destruct (decide (d = ix_dir indx)) as [->|Hne].
  - rewrite lookup_insert_eq. eexists. split; [done|]. simpl. congruence.
  - rewrite lookup_insert_ne by done. by exists ix1.
Qed.

Lemma for_each_extends {A : Type} (body : A → M unit) l w r w' :
  (∀ x w r w', body x w = (r, w') → keeps w w') →
  for_each body l w = (r, w') → keeps w w'.
Proof.
  intros Hbody. revert w. induction l as [|x l IH]; intros w; simpl.
  { intros [= <- <-]. apply keeps_refl. }
  unfold mbind, M_bind. destruct (body x w) as [[[]|e] w1] eqn:Hx.
  - intros Hrest. eapply keeps_trans; [by eapply Hbody|by apply IH].
  - intros [= <- <-]. by eapply Hbody.
Qed.

(** X12. Whatever the changes and whatever its outcome, the commit hook
    drops nothing: a handle cached under a name stays cached under it;
    a directory that holds an index holds one afterwards, with the same
    schema, so that the schema of an index is the one it was created
    with; and no key of the configuration but the base path changes. *)
Theorem after_flush_keeps changes w r w' :
  _after_flush changes w = (r, w') →
  (∀ name indx,
     default ∅ (whoosh_indexes (app w)) !! name = Some indx →
     default ∅ (whoosh_indexes (app w')) !! name = Some indx) ∧
  (∀ d ix, index_files (disk w) !! d = Some ix →
           ∃ ix', index_files (disk w') !! d = Some ix' ∧
                  ix_schema ix' = ix_schema ix) ∧
  (∀ key, key ≠ "WHOOSH_BASE" →
          config (app w') !! key = config (app w) !! key).
Proof.
  unfold _after_flush. intros Hrun.
  eapply (for_each_extends _ _ _ _ _ _ Hrun).
  Unshelve. intros [model values] w0 r0 w0'. apply index_batch_extends.
Qed.

(** X13. The batch of one record type is written as a whole or not at
    all, and to one directory. When the batch raises, whatever the
    reason, every stored index is as it was before the batch; when it
    returns, no directory has changed but the one of the handle that is
    cached under the name of the type of the first record. *)
Theorem index_batch_frame model values w r w' :
  index_batch model values w = (r, w') →
  match r with
  | Raise _ =>
      ∀ d ix, index_files (disk w) !! d = Some ix →
              index_files (disk w') !! d = Some ix
  | Ok _ =>
      ∃ update first indx,
        values !! 0 = Some (update, first) ∧
        default ∅ (whoosh_indexes (app w')) !! cls_name (inst_class first)
        = Some indx ∧
        ∀ d, d ≠ ix_dir indx →
             index_files (disk w') !! d = index_files (disk w) !! d
  end.
Proof.
  intros [(e & -> & ->)|(update & first & r1 & w1 & Hfirst & Hrun & Hrest)]
    %index_batch_cases.
  { done. }
  destruct (whoosh_index_frame _ _ _ _ Hrun)
    as (_ & Hfiles & _ & _ & _ & Hdir & Hreg).
  destruct Hrest as [(e & -> & ->)|
                     (indx & ix & writer' & -> & -> & _ & _ & Hw' & Happ)].
  { done. }
  exists update, first, indx. split_and!; [done| |].
  - rewrite Happ. by apply Hreg.
  - intros d Hd. rewrite Hw', lookup_insert_ne by done.
    by apply (Hdir indx).
Qed.

(** *** The document of an upsert *)

Lemma build_attrs_lookup model v ks attrs out :
  build_attrs model v ks attrs = Ok out →
  (∀ key, key ∈ ks →
          ∃ text, getattr v key ≫= unicode = Ok text ∧
                  out !! key = Some text) ∧
  (∀ key, key ∉ ks → out !! key = attrs !! key).
Proof.
  revert attrs. induction ks as [|k ks IH]; intros attrs; simpl.
  { intros [= <-]. split; [|done]. intros key Hkey.
    by apply elem_of_nil in Hkey. }
  destruct (getattr v k) as [x|e] eqn:Hk; [|by destruct e].
  destruct (unicode x) as [text|] eqn:Hx; [|done]. simpl.
  intros [Hin Hout]%IH. split.
  - intros key Hkey. destruct (decide (key ∈ ks)) as [Hks|Hks].
    { by apply Hin. }
    apply elem_of_cons in Hkey as [->|]; [|done].
    exists text. rewrite Hk. simpl. split; [done|].
    by rewrite Hout, lookup_insert_eq.
  - intros key [Hne Hks]%not_elem_of_cons.
    by rewrite Hout, lookup_insert_ne.
Qed.

(** X14. The document that an upserted record is written as. It holds
    the text of the primary key under the name of the primary key and,
    under every other searchable name, the text of that attribute of
    the record, whatever the type of the column; it holds nothing
    else. *)
Theorem upsert_document model pf searchable writer v writer' :
  write_value model (Some pf) searchable writer true v = Ok writer' →
  ∃ doc pk,
    writer' = update_document writer doc ∧
    getattr v pf ≫= unicode = Ok pk ∧
    doc !! pf = Some pk ∧
    (∀ key, key ∈ searchable → key ≠ pf →
            ∃ text, getattr v key ≫= unicode = Ok text ∧
                    doc !! key = Some text) ∧
    (∀ key, key ∉ searchable → key ≠ pf → doc !! key = None).
Proof.
  unfold write_value.
  destruct (build_attrs model v searchable ∅) as [attrs|] eqn:Hattrs;
    [|done].
  simpl. destruct (getattr v pf ≫= unicode) as [pk|] eqn:Hpk; [|done].
  simpl. intros [= <-].
  apply build_attrs_lookup in Hattrs as [Hin Hout].
  exists (<[pf := pk]> attrs), pk. split_and!; [done..| | |].
  - apply lookup_insert_eq.
  - intros key Hkey Hne. rewrite lookup_insert_ne by done. by apply Hin.
  - intros key Hkey Hne. rewrite lookup_insert_ne by done.
    by rewrite Hout.
Qed.

(** *** Two record types of one name *)

(** X15. The registry is keyed by the bare name of the record type.
    When a handle is cached under the name of the type of a record but
    the type itself never got a Searcher, as for the second of two
    record types of one name, committing a change of the record raises
    [AttributeError] and changes nothing. *)
Theorem after_flush_name_collision v op w ixs indx ix cattrs :
  has_searchable v = true →
  whoosh_indexes (app w) = Some ixs →
  ixs !! cls_name (inst_class v) = Some indx →
  index_files (disk w) !! ix_dir indx = Some ix →
  classes w !! cls_id (inst_class v) = Some cattrs →
  pure_whoosh cattrs = None →
  ∃ message, _after_flush [(v, op)] w = (Raise (AttributeError message), w).
Proof.
  intros Hs Hixs Hname Hix Hcls Hnone. eexists.
  unfold _after_flush, collect. simpl. unfold collect_step. simpl.
  rewrite Hs, lookup_empty. simpl. rewrite insert_empty, map_to_list_singleton.
  simpl. unfold index_batch, open_batch, lift, index_writer, read_index,
    class_pure_whoosh, class_attrs, mbind, M_bind, mret, M_ret. simpl.
  rewrite (whoosh_index_cached v w ixs indx Hixs Hname).
  rewrite Hix, Hcls, Hnone. reflexivity.
Qed.

End FlushMoreFacts.

Module FlushMoreExamples.
Import Scenario FlushMoreFacts.

Lemma after_flush_keeps_witness :
  let changes := [(line 7 1 3 "fragile", "insert"); (draft, "update")] in
  let w' := (_after_flush changes two_modules).2 in
  (∀ name indx,
     default ∅ (whoosh_indexes (app two_modules)) !! name = Some indx →
     default ∅ (whoosh_indexes (app w')) !! name = Some indx) ∧
  (∀ d ix, index_files (disk two_modules) !! d = Some ix →
           ∃ ix', index_files (disk w') !! d = Some ix' ∧
                  ix_schema ix' = ix_schema ix) ∧
  (∀ key, key ≠ "WHOOSH_BASE" →
          config (app w') !! key = config (app two_modules) !! key).
Proof.
  apply (after_flush_keeps
           [(line 7 1 3 "fragile", "insert"); (draft, "update")] two_modules
           (_after_flush [(line 7 1 3 "fragile", "insert"); (draft, "update")]
              two_modules).1
           (_after_flush [(line 7 1 3 "fragile", "insert"); (draft, "update")]
              two_modules).2).
  reflexivity.
Defined.

(** The batch with [draft] raises and leaves the index of [Article]
    as it was. *)
Lemma index_batch_frame_witness :
  let values := [(true, article 4 "grey fox" "hides"); (true, draft)] in
  (index_batch "Article" values indexed).1
  = Raise (AttributeError "Article does not have __searchable__ field body")
  ∧
  ∀ d ix, index_files (disk indexed) !! d = Some ix →
          index_files (disk (index_batch "Article" values indexed).2) !! d
          = Some ix.
Proof.
  split; [vm_compute; reflexivity|].
  apply (index_batch_frame "Article"
           [(true, article 4 "grey fox" "hides"); (true, draft)] indexed
           (Raise (AttributeError
                     "Article does not have __searchable__ field body"))
           (index_batch "Article"
              [(true, article 4 "grey fox" "hides"); (true, draft)]
              indexed).2).
  vm_compute. reflexivity.
Defined.

(** The document of a [Line] holds the quantity, of a column that is
    not textual and that the schema of the index has no field for. *)
Lemma upsert_document_witness :
  ∃ doc pk,
    let v := line 7 1 3 "fragile" in
    let writer := {| w_schema := {[ "order_id" := ID_stored_unique;
                                    "position" := ID_stored_unique;
                                    "note" := TEXT_stemming ]};
                     w_docs := [] |} in
    (write_value "Line" (Some "position") ["note"; "quantity"] writer true v
     = Ok (update_document writer doc)) ∧
    getattr v "position" ≫= unicode = Ok pk ∧
    doc !! "position" = Some pk ∧
    (∀ key, key ∈ ["note"; "quantity"] → key ≠ "position" →
            ∃ text, getattr v key ≫= unicode = Ok text ∧
                    doc !! key = Some text) ∧
    (∀ key, key ∉ ["note"; "quantity"] → key ≠ "position" →
            doc !! key = None).
Proof.
  destruct (upsert_document "Line" "position" ["note"; "quantity"]
              {| w_schema := {[ "order_id" := ID_stored_unique;
                                "position" := ID_stored_unique;
                                "note" := TEXT_stemming ]};
                 w_docs := [] |}
              (line 7 1 3 "fragile")
              (update_document
                 {| w_schema := {[ "order_id" := ID_stored_unique;
                                   "position" := ID_stored_unique;
                                   "note" := TEXT_stemming ]};
                    w_docs := [] |}
                 {[ "position" := "1"; "note" := "fragile";
                    "quantity" := "3" ]}))
    as (doc & pk & Hdoc & Hrest).
  { vm_compute. reflexivity. }
  exists doc, pk. simpl. split; [|exact Hrest].
  rewrite <-Hdoc. vm_compute. reflexivity.
Defined.

Example line_attrs :
  build_attrs "Line" (line 7 1 3 "fragile") ["note"; "quantity"] ∅
  = Ok {[ "note" := "fragile"; "quantity" := "3" ]}.
Proof. vm_compute. reflexivity. Qed.

(** Committing a [Reprint] after the articles were indexed. *)
Lemma after_flush_name_collision_witness :
  ∃ message,
    _after_flush [(reprint 9 "red fox", "insert")] two_modules
    = (Raise (AttributeError message), two_modules).
Proof.
  apply (after_flush_name_collision (reprint 9 "red fox") "insert"
           two_modules
           {[ "Article" := {| ix_dir := "whoosh_index/Article" |} ]}
           {| ix_dir := "whoosh_index/Article" |}
           (default {| ix_schema := ∅; ix_docs := [] |}
              (index_files (disk two_modules) !! "whoosh_index/Article"))
           {| query := PlainQuery []; pure_whoosh := None |});
    vm_compute; reflexivity.
Defined.

End FlushMoreExamples.
